(** * ssml-builder: the node contract, escaping and the builders

    A shallow embedding of the TypeScript sources of ssml-builder
    (src/utils/xml.ts, src/core, src/elements, src/builders) and the
    properties its specification states about them.

    How the program is modelled:

    - A JavaScript string is a [string]. The five characters the library
      treats specially are ASCII, so whether the remaining characters are
      read as UTF-16 code units or as bytes makes no difference to any
      function below.
    - A node (an instance of a class of src/elements) is a value of the
      inductive type [SSMLElement], and render() is a function on it. An
      options object is a record; the library only reads it.
    - A method of a container that pushes onto its content and returns
      this is a function from the state before the call to the state after
      it. A callback handed to paragraph(), sentence() or lang() is given by
      the state in which it leaves the fresh container it receives.
    - SSMLBuilder and VoiceBuilder refer to each other, and the caller keeps
      references to both: these objects live in a heap, and their methods
      are computations on the heap that return, or throw. *)

From Stdlib Require Import Ascii.
From stdpp Require Import base option list strings.

(** ** JavaScript primitives used by the sources *)

Module JS.

(** The characters that cannot be written inside a literal here. *)
Definition dq : string := String "034"%char EmptyString.
Definition nl : string := String "010"%char EmptyString.

(** text.replace(/c/g, r) for a one-character pattern c and a replacement
    r without dollar patterns: every occurrence of c becomes r. *)
Fixpoint replace_all (c : ascii) (r : string) (text : string) : string :=
  match text with
  | EmptyString => EmptyString
  | String a rest =>
      if Ascii.eqb a c then r +:+ replace_all c r rest
      else String a (replace_all c r rest)
  end.

(** xs.join(sep) on an array of strings. *)
Fixpoint join (sep : string) (xs : list string) : string :=
  match xs with
  | [] => EmptyString
  | [x] => x
  | x :: rest => x +:+ sep +:+ join sep rest
  end.

(** Truthiness of a value of type string | undefined. *)
Definition truthy (v : option string) : bool :=
  match v with
  | Some s => negb (String.eqb s EmptyString)
  | None => false
  end.

(** A value of type string | undefined inside a template literal. *)
Definition template (v : option string) : string :=
  match v with
  | Some s => s
  | None => "undefined"
  end.

(** xs.includes(value) on an array of strings. *)
Definition includes (xs : list string) (value : string) : bool :=
  existsb (String.eqb value) xs.

End JS.

(** ** Regular expressions

    The regular expressions of src/utils/xml.ts are anchored at both ends
    and use only character classes, sequence, alternation and the
    quantifiers + and ?, so re.test(value) says whether the whole of value
    belongs to the language of the expression. It is decided here with
    derivatives. *)

Module Regex.

Inductive regex :=
| Void
| Eps
| Class (p : ascii -> bool)
| Cat (r1 r2 : regex)
| Alt (r1 r2 : regex)
| Star (r : regex).

(** One given character. *)
Definition Chr (c : ascii) : regex := Class (Ascii.eqb c).

(** r+ and r? *)
Definition Plus (r : regex) : regex := Cat r (Star r).
Definition Opt (r : regex) : regex := Alt r Eps.

(** A literal sequence of characters. *)
Fixpoint Lit (s : string) : regex :=
  match s with
  | EmptyString => Eps
  | String c rest => Cat (Chr c) (Lit rest)
  end.

(** The class \d: the ten ASCII digits. *)
Definition digit (a : ascii) : bool :=
  (48 <=? nat_of_ascii a) && (nat_of_ascii a <=? 57).

(** The class [+-]. *)
Definition plus_minus (a : ascii) : bool :=
  Ascii.eqb a "+" || Ascii.eqb a "-".

Fixpoint nullable (r : regex) : bool :=
  match r with
  | Void => false
  | Eps => true
  | Class _ => false
  | Cat r1 r2 => nullable r1 && nullable r2
  | Alt r1 r2 => nullable r1 || nullable r2
  | Star _ => true
  end.

Fixpoint deriv (c : ascii) (r : regex) : regex :=
  match r with
  | Void => Void
  | Eps => Void
  | Class p => if p c then Eps else Void
  | Cat r1 r2 =>
      if nullable r1 then Alt (Cat (deriv c r1) r2) (deriv c r2)
      else Cat (deriv c r1) r2
  | Alt r1 r2 => Alt (deriv c r1) (deriv c r2)
  | Star r1 => Cat (deriv c r1) (Star r1)
  end.

(** /^r$/.test(value) *)
Fixpoint test (r : regex) (value : string) : bool :=
  match value with
  | EmptyString => nullable r
  | String c rest => test (deriv c r) rest
  end.

(** The language of an expression. *)
Inductive matches : regex -> string -> Prop :=
| m_eps : matches Eps EmptyString
| m_class p c : p c = true -> matches (Class p) (String c EmptyString)
| m_cat r1 r2 s1 s2 :
    matches r1 s1 -> matches r2 s2 -> matches (Cat r1 r2) (s1 +:+ s2)
| m_alt_l r1 r2 s : matches r1 s -> matches (Alt r1 r2) s
| m_alt_r r1 r2 s : matches r2 s -> matches (Alt r1 r2) s
| m_star_nil r : matches (Star r) EmptyString
| m_star_cons r s1 s2 :
    matches r s1 -> matches (Star r) s2 -> matches (Star r) (s1 +:+ s2).

(** Every character class of the expression lies within [P]. *)
Fixpoint within (P : ascii -> bool) (r : regex) : Prop :=
  match r with
  | Void | Eps => True
  | Class p => forall a, p a = true -> P a = true
  | Cat r1 r2 | Alt r1 r2 => within P r1 /\ within P r2
  | Star r1 => within P r1
  end.

(** Every character of the text satisfies [p]. *)
Fixpoint all_chars (p : ascii -> bool) (s : string) : bool :=
  match s with
  | EmptyString => true
  | String a rest => p a && all_chars p rest
  end.

End Regex.

(** ** src/utils/xml.ts *)

Module Xml.

Definition escapeXml (text : string) : string :=
  JS.replace_all "'" "&apos;"
    (JS.replace_all "034" "&quot;"
      (JS.replace_all ">" "&gt;"
        (JS.replace_all "<" "&lt;"
          (JS.replace_all "&" "&amp;" text)))).

(** formatAttributes(attrs): [attrs] lists the entries of the object in the
    order in which Object.entries yields them; the value of an entry is a
    string or undefined. *)
Definition formatAttributes (attrs : list (string * option string)) : string :=
  JS.join " "
    (List.map (fun '(key, value) => key +:+ "=" +:+ JS.dq +:+ JS.template value +:+ JS.dq)
       (List.filter (fun '(_, value) => bool_decide (value <> None)) attrs)).

Definition isValidBreakStrength (value : string) : bool :=
  JS.includes ["x-weak"; "weak"; "medium"; "strong"; "x-strong"] value.

Definition isValidSilenceType (value : string) : bool :=
  JS.includes
    ["Leading"; "Leading-exact"; "Tailing"; "Tailing-exact"; "Sentenceboundary";
     "Sentenceboundary-exact"; "Comma-exact"; "Semicolon-exact";
     "Enumerationcomma-exact"] value.

Definition isValidEmphasisLevel (value : string) : bool :=
  JS.includes ["strong"; "moderate"; "reduced"] value.

(** \d+(\.\d+)? and [+-]?, the pieces the four expressions share. *)
Definition re_number : Regex.regex :=
  Regex.Cat (Regex.Plus (Regex.Class Regex.digit))
    (Regex.Opt (Regex.Cat (Regex.Chr ".") (Regex.Plus (Regex.Class Regex.digit)))).

Definition re_sign : Regex.regex := Regex.Opt (Regex.Class Regex.plus_minus).

(** /^\d+(\.\d+)?(ms|s)$/ *)
Definition re_duration : Regex.regex :=
  Regex.Cat re_number (Regex.Alt (Regex.Lit "ms") (Regex.Lit "s")).

(** /^[+-]?\d+(\.\d+)?dB$/ *)
Definition re_decibel : Regex.regex :=
  Regex.Cat re_sign (Regex.Cat re_number (Regex.Lit "dB")).

(** /^\d+(\.\d+)?%?$/ *)
Definition re_percentage : Regex.regex :=
  Regex.Cat re_number (Regex.Opt (Regex.Chr "%")).

(** /^[+-]?\d+(\.\d+)?%?$/ *)
Definition re_rate : Regex.regex :=
  Regex.Cat re_sign (Regex.Cat re_number (Regex.Opt (Regex.Chr "%"))).

(** /^[+-]?\d+(\.\d+)?(Hz|%)$/ *)
Definition re_pitch : Regex.regex :=
  Regex.Cat re_sign
    (Regex.Cat re_number (Regex.Alt (Regex.Lit "Hz") (Regex.Lit "%"))).

Definition isValidDuration (value : string) : bool :=
  Regex.test re_duration value.

Definition isValidVolume (value : string) : bool :=
  Regex.test re_decibel value
  || Regex.test re_percentage value
  || JS.includes ["silent"; "x-soft"; "soft"; "medium"; "loud"; "x-loud"] value.

Definition isValidRate (value : string) : bool :=
  Regex.test re_rate value
  || JS.includes ["x-slow"; "slow"; "medium"; "fast"; "x-fast"] value.

Definition isValidPitch (value : string) : bool :=
  Regex.test re_pitch value
  || JS.includes ["x-low"; "low"; "medium"; "high"; "x-high"] value.

End Xml.

(** ** src/core/SSMLElement.ts: the escaping every node inherits *)

Definition SSMLElement_escapeXml (text : string) : string :=
  JS.replace_all "'" "&apos;"
    (JS.replace_all "034" "&quot;"
      (JS.replace_all ">" "&gt;"
        (JS.replace_all "<" "&lt;"
          (JS.replace_all "&" "&amp;" text)))).

(** ** The specification of escaping, in the words of the spec *)

Module EscapeSpec.

(** The five substitutions, in the order in which they are applied. *)
Definition substitutions : list (ascii * string) :=
  [("&"%char, "&amp;"); ("<"%char, "&lt;"); (">"%char, "&gt;");
   ("034"%char, "&quot;"); ("'"%char, "&apos;")].

(** One substitution after the other, each over the whole text. *)
Definition substitute_all (text : string) : string :=
  foldl (fun text '(c, r) => JS.replace_all c r text) text substitutions.

(** The five reserved characters. *)
Definition reserved (a : ascii) : bool :=
  Ascii.eqb a "&" || Ascii.eqb a "<" || Ascii.eqb a ">"
  || Ascii.eqb a "034" || Ascii.eqb a "'".

(** The entity that stands for a reserved character; any other character
    stands for itself. *)
Definition entity (a : ascii) : string :=
  if Ascii.eqb a "&" then "&amp;"
  else if Ascii.eqb a "<" then "&lt;"
  else if Ascii.eqb a ">" then "&gt;"
  else if Ascii.eqb a "034" then "&quot;"
  else if Ascii.eqb a "'" then "&apos;"
  else String a EmptyString.

(** One left-to-right pass. *)
Fixpoint escape_pass (text : string) : string :=
  match text with
  | EmptyString => EmptyString
  | String a rest => entity a +:+ escape_pass rest
  end.

(** The names of the five entities and the characters they decode to. *)
Definition entity_table : list (string * ascii) :=
  [("amp", "&"%char); ("lt", "<"%char); ("gt", ">"%char);
   ("quot", "034"%char); ("apos", "'"%char)].

Fixpoint lookup_entity (name : string) (table : list (string * ascii))
  : option ascii :=
  match table with
  | [] => None
  | (n, c) :: rest => if String.eqb name n then Some c else lookup_entity name rest
  end.

(** Entity decoding. [pending] is the entity name read so far after an
    ampersand. Decoding fails on a reserved character that stands
    outside an entity, on an unknown entity and on an unfinished one. *)
Fixpoint decode_from (pending : option string) (text : string)
  : option string :=
  match text with
  | EmptyString =>
      match pending with
      | None => Some EmptyString
      | Some _ => None
      end
  | String a rest =>
      match pending with
      | None =>
          if Ascii.eqb a "&" then decode_from (Some EmptyString) rest
          else if reserved a then None
          else String a <$> decode_from None rest
      | Some name =>
          if Ascii.eqb a ";" then
            match lookup_entity name entity_table with
            | Some c => String c <$> decode_from None rest
            | None => None
            end
          else if reserved a then None
          else decode_from (Some (name +:+ String a EmptyString)) rest
      end
  end.

Definition decode (text : string) : option string := decode_from None text.

(** A text in which the reserved characters occur only as parts of the
    five entity sequences. *)
Inductive entity_text : string -> Prop :=
| et_empty : entity_text EmptyString
| et_plain a rest :
    reserved a = false -> entity_text rest -> entity_text (String a rest)
| et_entity a rest :
    reserved a = true -> entity_text rest -> entity_text (entity a +:+ rest).

(** Whether a reserved character occurs in a text. *)
Fixpoint has_reserved (text : string) : bool :=
  match text with
  | EmptyString => false
  | String a rest => reserved a || has_reserved rest
  end.

End EscapeSpec.

(** ** src/types: enumerated attribute values and option objects

    A TypeScript union of string literals is an enumeration; its values are
    the strings the type lists. *)

Inductive BreakStrength := bs_x_weak | bs_weak | bs_medium | bs_strong | bs_x_strong.

Definition BreakStrength_str (s : BreakStrength) : string :=
  match s with
  | bs_x_weak => "x-weak" | bs_weak => "weak" | bs_medium => "medium"
  | bs_strong => "strong" | bs_x_strong => "x-strong"
  end.

Inductive SilenceType :=
| st_Leading | st_Leading_exact | st_Tailing | st_Tailing_exact
| st_Sentenceboundary | st_Sentenceboundary_exact | st_Comma_exact
| st_Semicolon_exact | st_Enumerationcomma_exact.

Definition SilenceType_str (t : SilenceType) : string :=
  match t with
  | st_Leading => "Leading" | st_Leading_exact => "Leading-exact"
  | st_Tailing => "Tailing" | st_Tailing_exact => "Tailing-exact"
  | st_Sentenceboundary => "Sentenceboundary"
  | st_Sentenceboundary_exact => "Sentenceboundary-exact"
  | st_Comma_exact => "Comma-exact" | st_Semicolon_exact => "Semicolon-exact"
  | st_Enumerationcomma_exact => "Enumerationcomma-exact"
  end.

Inductive EmphasisLevel := el_strong | el_moderate | el_reduced.

Definition EmphasisLevel_str (l : EmphasisLevel) : string :=
  match l with
  | el_strong => "strong" | el_moderate => "moderate" | el_reduced => "reduced"
  end.

Inductive PhonemeAlphabet := pa_ipa | pa_sapi | pa_ups.

Definition PhonemeAlphabet_str (a : PhonemeAlphabet) : string :=
  match a with pa_ipa => "ipa" | pa_sapi => "sapi" | pa_ups => "ups" end.

Inductive SayAsInterpretAs :=
| ia_address | ia_cardinal | ia_characters | ia_date | ia_digits | ia_fraction
| ia_ordinal | ia_spell_out | ia_telephone | ia_time | ia_name | ia_currency.

Definition SayAsInterpretAs_str (i : SayAsInterpretAs) : string :=
  match i with
  | ia_address => "address" | ia_cardinal => "cardinal"
  | ia_characters => "characters" | ia_date => "date" | ia_digits => "digits"
  | ia_fraction => "fraction" | ia_ordinal => "ordinal"
  | ia_spell_out => "spell-out" | ia_telephone => "telephone"
  | ia_time => "time" | ia_name => "name" | ia_currency => "currency"
  end.

Inductive ExpressAsStyle :=
| es_advertisement_upbeat | es_affectionate | es_angry | es_assistant | es_calm
| es_chat | es_cheerful | es_customerservice | es_depressed | es_disgruntled
| es_documentary_narration | es_embarrassed | es_empathetic | es_envious
| es_excited | es_fearful | es_friendly | es_gentle | es_hopeful | es_lyrical
| es_narration_professional | es_narration_relaxed | es_newscast
| es_newscast_casual | es_newscast_formal | es_poetry_reading | es_sad
| es_serious | es_shouting | es_sports_commentary
| es_sports_commentary_excited | es_whispering | es_terrified | es_unfriendly.

Definition ExpressAsStyle_str (s : ExpressAsStyle) : string :=
  match s with
  | es_advertisement_upbeat => "advertisement_upbeat"
  | es_affectionate => "affectionate" | es_angry => "angry"
  | es_assistant => "assistant" | es_calm => "calm" | es_chat => "chat"
  | es_cheerful => "cheerful" | es_customerservice => "customerservice"
  | es_depressed => "depressed" | es_disgruntled => "disgruntled"
  | es_documentary_narration => "documentary-narration"
  | es_embarrassed => "embarrassed" | es_empathetic => "empathetic"
  | es_envious => "envious" | es_excited => "excited"
  | es_fearful => "fearful" | es_friendly => "friendly"
  | es_gentle => "gentle" | es_hopeful => "hopeful" | es_lyrical => "lyrical"
  | es_narration_professional => "narration-professional"
  | es_narration_relaxed => "narration-relaxed" | es_newscast => "newscast"
  | es_newscast_casual => "newscast-casual"
  | es_newscast_formal => "newscast-formal"
  | es_poetry_reading => "poetry-reading" | es_sad => "sad"
  | es_serious => "serious" | es_shouting => "shouting"
  | es_sports_commentary => "sports_commentary"
  | es_sports_commentary_excited => "sports_commentary_excited"
  | es_whispering => "whispering" | es_terrified => "terrified"
  | es_unfriendly => "unfriendly"
  end.

Inductive ExpressAsRole :=
| er_Girl | er_Boy | er_YoungAdultFemale | er_YoungAdultMale
| er_OlderAdultFemale | er_OlderAdultMale | er_SeniorFemale | er_SeniorMale.

Definition ExpressAsRole_str (r : ExpressAsRole) : string :=
  match r with
  | er_Girl => "Girl" | er_Boy => "Boy"
  | er_YoungAdultFemale => "YoungAdultFemale"
  | er_YoungAdultMale => "YoungAdultMale"
  | er_OlderAdultFemale => "OlderAdultFemale"
  | er_OlderAdultMale => "OlderAdultMale"
  | er_SeniorFemale => "SeniorFemale" | er_SeniorMale => "SeniorMale"
  end.

(** An optional property p?: T is [None] when the key is missing or holds
    undefined: the element classes only test such a property for
    truthiness, which does not tell the two apart. *)

Record BreakOptions := {
  strength : option BreakStrength;
  time : option string
}.

Record SilenceOptions := {
  silence_type : SilenceType;
  silence_value : string
}.

Record ProsodyOptions := {
  pitch : option string;
  contour : option string;
  range : option string;
  rate : option string;
  prosody_volume : option string
}.

Record ExpressAsOptions := {
  style : ExpressAsStyle;
  styledegree : option string;
  role : option ExpressAsRole
}.

Record SayAsOptions := {
  interpretAs : SayAsInterpretAs;
  format : option string;
  detail : option string
}.

Record PhonemeOptions := {
  alphabet : PhonemeAlphabet;
  ph : string
}.

Record BackgroundAudioOptions := {
  src : string;
  volume : option string;
  fadein : option string;
  fadeout : option string
}.

Record VoiceOptions := {
  name : string;
  effect : option string
}.

(** SSMLOptions as the caller passes it. The constructor of SSMLBuilder
    spreads it over the defaults, so a key that is present and undefined
    overrides a default: the three optional keys are [None] when missing and
    [Some v] when present, v being a string or undefined. *)
Record SSMLOptions := {
  version : option (option string);
  xmlns : option (option string);
  xmlnsMstts : option (option string);
  lang : string
}.

(** { ...defaults, ...options }: one key of the spread. *)
Definition spread (default : string) (given : option (option string))
  : option (option string) :=
  match given with
  | Some v => Some v
  | None => Some (Some default)
  end.

(** Reading a key of an options object: undefined when it is missing. *)
Definition read (p : option (option string)) : option string :=
  match p with
  | Some v => v
  | None => None
  end.

(** ** src/elements: the node classes

    An instance of a class that extends SSMLElement is a value of
    [SSMLElement]: the constructor names the class and carries the private
    fields. The fields of a node are set by its constructor and never
    reassigned; the content array of a container only grows, by the
    methods further down. *)

#[warnings="-register-all"]
Inductive SSMLElement :=
| AudioDurationElement (value : string)
| AudioElement (src : string) (fallbackText : option string)
| BackgroundAudioElement (options : BackgroundAudioOptions)
| BookmarkElement (mark : string)
| BreakElement (options : option BreakOptions)
| EmphasisElement (text : string) (level : option EmphasisLevel)
| ExpressAsElement (text : string) (options : ExpressAsOptions)
| LangElement (lang : string) (content : list (string + SSMLElement))
| LexiconElement (uri : string)
| MathElement (mathML : string)
| ParagraphElement (content : list (string + SSMLElement))
| PhonemeElement (text : string) (options : PhonemeOptions)
| ProsodyElement (text : string) (options : ProsodyOptions)
| SayAsElement (text : string) (options : SayAsOptions)
| SentenceElement (content : list (string + SSMLElement))
| SilenceElement (options : SilenceOptions)
| SubElement (original : string) (alias : string)
| TTSEmbeddingElement (speakerProfileId : string) (text : string)
| VisemeElement (type : string)
| VoiceConversionElement (url : string)
| ParagraphBuilder (paragraph : list (string + SSMLElement))
| SentenceBuilder (sentence : list (string + SSMLElement)).

(** The type (string | SSMLElement)[] of a content array. *)
Definition ContentList := list (string + SSMLElement).

(** The piece key="${value}" of a template literal. *)
Definition attr (key value : string) : string :=
  key +:+ "=" +:+ JS.dq +:+ value +:+ JS.dq.

(** if (value) attrs.push(`key="${value}"`) *)
Definition push_attr (key : string) (value : option string) (attrs : list string)
  : list string :=
  if JS.truthy value then attrs ++ [attr key (JS.template value)] else attrs.

Definition AudioDurationElement_render (value : string) : string :=
  "<mstts:audioduration " +:+ attr "value" value +:+ "/>".

Definition AudioElement_render (src : string) (fallbackText : option string)
  : string :=
  let content :=
    if JS.truthy fallbackText
    then SSMLElement_escapeXml (JS.template fallbackText)
    else EmptyString in
  "<audio " +:+ attr "src" src +:+ ">" +:+ content +:+ "</audio>".

Definition BackgroundAudioElement_render (options : BackgroundAudioOptions)
  : string :=
  let attrs := [attr "src" (src options)] in
  let attrs := push_attr "volume" (volume options) attrs in
  let attrs := push_attr "fadein" (fadein options) attrs in
  let attrs := push_attr "fadeout" (fadeout options) attrs in
  "<mstts:backgroundaudio " +:+ JS.join " " attrs +:+ "/>".

Definition BookmarkElement_render (mark : string) : string :=
  "<bookmark " +:+ attr "mark" mark +:+ "/>".

Definition BreakElement_render (options : option BreakOptions) : string :=
  match options with
  | None => "<break/>"
  | Some options =>
      let attrs := [] in
      let attrs :=
        push_attr "strength" (BreakStrength_str <$> strength options) attrs in
      let attrs := push_attr "time" (time options) attrs in
      if 0 <? length attrs
      then "<break " +:+ JS.join " " attrs +:+ "/>"
      else "<break/>"
  end.

Definition EmphasisElement_render (text : string) (level : option EmphasisLevel)
  : string :=
  let level := EmphasisLevel_str <$> level in
  let levelAttr :=
    if JS.truthy level then " " +:+ attr "level" (JS.template level)
    else EmptyString in
  "<emphasis" +:+ levelAttr +:+ ">" +:+ SSMLElement_escapeXml text
  +:+ "</emphasis>".

Definition ExpressAsElement_render (text : string) (options : ExpressAsOptions)
  : string :=
  let attrs := [attr "style" (ExpressAsStyle_str (style options))] in
  let attrs := push_attr "styledegree" (styledegree options) attrs in
  let attrs := push_attr "role" (ExpressAsRole_str <$> role options) attrs in
  "<mstts:express-as " +:+ JS.join " " attrs +:+ ">"
  +:+ SSMLElement_escapeXml text +:+ "</mstts:express-as>".

Definition LexiconElement_render (uri : string) : string :=
  "<lexicon " +:+ attr "uri" uri +:+ "/>".

Definition MathElement_render (mathML : string) : string :=
  "<math " +:+ attr "xmlns" "http://www.w3.org/1998/Math/MathML" +:+ ">"
  +:+ mathML +:+ "</math>".

Definition PhonemeElement_render (text : string) (options : PhonemeOptions)
  : string :=
  "<phoneme " +:+ attr "alphabet" (PhonemeAlphabet_str (alphabet options))
  +:+ " " +:+ attr "ph" (ph options) +:+ ">"
  +:+ SSMLElement_escapeXml text +:+ "</phoneme>".

Definition ProsodyElement_render (text : string) (options : ProsodyOptions)
  : string :=
  let attrs := [] in
  let attrs := push_attr "pitch" (pitch options) attrs in
  let attrs := push_attr "contour" (contour options) attrs in
  let attrs := push_attr "range" (range options) attrs in
  let attrs := push_attr "rate" (rate options) attrs in
  let attrs := push_attr "volume" (prosody_volume options) attrs in
  let attrsStr :=
    if 0 <? length attrs then " " +:+ JS.join " " attrs else EmptyString in
  "<prosody" +:+ attrsStr +:+ ">" +:+ SSMLElement_escapeXml text
  +:+ "</prosody>".

Definition SayAsElement_render (text : string) (options : SayAsOptions)
  : string :=
  let attrs := [attr "interpret-as" (SayAsInterpretAs_str (interpretAs options))] in
  let attrs := push_attr "format" (format options) attrs in
  let attrs := push_attr "detail" (detail options) attrs in
  "<say-as " +:+ JS.join " " attrs +:+ ">" +:+ SSMLElement_escapeXml text
  +:+ "</say-as>".

Definition SilenceElement_render (options : SilenceOptions) : string :=
  "<mstts:silence " +:+ attr "type" (SilenceType_str (silence_type options))
  +:+ " " +:+ attr "value" (silence_value options) +:+ "/>".

Definition SubElement_render (original alias : string) : string :=
  "<sub " +:+ attr "alias" alias +:+ ">" +:+ SSMLElement_escapeXml original
  +:+ "</sub>".

Definition TTSEmbeddingElement_render (speakerProfileId text : string) : string :=
  "<mstts:ttsembedding " +:+ attr "speakerProfileId" speakerProfileId +:+ ">"
  +:+ SSMLElement_escapeXml text +:+ "</mstts:ttsembedding>".

Definition VisemeElement_render (type : string) : string :=
  "<mstts:viseme " +:+ attr "type" type +:+ "/>".

Definition VoiceConversionElement_render (url : string) : string :=
  "<mstts:voiceconversion " +:+ attr "url" url +:+ "/>".

(** this.content.map(c => typeof c === 'string' ? this.escapeXml(c)
    : c.render()).join(''), given the render of a child. *)
Definition render_content (render : SSMLElement -> string) (content : ContentList)
  : string :=
  JS.join EmptyString
    (map (fun c =>
            match c with
            | inl text => SSMLElement_escapeXml text
            | inr element => render element
            end) content).

(** The method render() of a node: the class of the node selects the body. *)
Fixpoint render (e : SSMLElement) : string :=
  match e with
  | AudioDurationElement value => AudioDurationElement_render value
  | AudioElement src fallbackText => AudioElement_render src fallbackText
  | BackgroundAudioElement options => BackgroundAudioElement_render options
  | BookmarkElement mark => BookmarkElement_render mark
  | BreakElement options => BreakElement_render options
  | EmphasisElement text level => EmphasisElement_render text level
  | ExpressAsElement text options => ExpressAsElement_render text options
  | LangElement lang content =>
      "<lang " +:+ attr "xml:lang" lang +:+ ">" +:+ render_content render content
      +:+ "</lang>"
  | LexiconElement uri => LexiconElement_render uri
  | MathElement mathML => MathElement_render mathML
  | ParagraphElement content =>
      "<p>" +:+ render_content render content +:+ "</p>"
  | PhonemeElement text options => PhonemeElement_render text options
  | ProsodyElement text options => ProsodyElement_render text options
  | SayAsElement text options => SayAsElement_render text options
  | SentenceElement content =>
      "<s>" +:+ render_content render content +:+ "</s>"
  | SilenceElement options => SilenceElement_render options
  | SubElement original alias => SubElement_render original alias
  | TTSEmbeddingElement speakerProfileId text =>
      TTSEmbeddingElement_render speakerProfileId text
  | VisemeElement type => VisemeElement_render type
  | VoiceConversionElement url => VoiceConversionElement_render url
  | ParagraphBuilder paragraph =>
      "<p>" +:+ render_content render paragraph +:+ "</p>"
  | SentenceBuilder sentence =>
      "<s>" +:+ render_content render sentence +:+ "</s>"
  end.

(** ** The container classes: ParagraphElement, SentenceElement, LangElement

    The only field of a ParagraphElement or a SentenceElement is its content
    array, so the state of an instance is a [ContentList]; a method that
    pushes onto this.content and returns this maps the state before the
    call to the state after it. *)

Definition new_ParagraphElement : ContentList := [].

Definition ParagraphElement_text (text : string) (content : ContentList)
  : ContentList := content ++ [inl text].

Definition ParagraphElement_addElement (element : SSMLElement)
  (content : ContentList) : ContentList := content ++ [inr element].

Definition ParagraphElement_sayAs (text : string) (options : SayAsOptions)
  (content : ContentList) : ContentList :=
  content ++ [inr (SayAsElement text options)].

Definition ParagraphElement_sub (original alias : string) (content : ContentList)
  : ContentList := content ++ [inr (SubElement original alias)].

Definition ParagraphElement_emphasis (text : string)
  (level : option EmphasisLevel) (content : ContentList) : ContentList :=
  content ++ [inr (EmphasisElement text level)].

(** break(options?: BreakOptions | string) *)
Definition ParagraphElement_break (options : option (BreakOptions + string))
  (content : ContentList) : ContentList :=
  match options with
  | Some (inr s) =>
      content ++ [inr (BreakElement (Some {| strength := None; time := Some s |}))]
  | Some (inl o) => content ++ [inr (BreakElement (Some o))]
  | None => content ++ [inr (BreakElement None)]
  end.

Definition ParagraphElement_phoneme (text : string) (options : PhonemeOptions)
  (content : ContentList) : ContentList :=
  content ++ [inr (PhonemeElement text options)].

Definition ParagraphElement_prosody (text : string) (options : ProsodyOptions)
  (content : ContentList) : ContentList :=
  content ++ [inr (ProsodyElement text options)].

Definition ParagraphElement_audio (src : string) (fallbackText : option string)
  (content : ContentList) : ContentList :=
  content ++ [inr (AudioElement src fallbackText)].

Definition ParagraphElement_render (content : ContentList) : string :=
  render (ParagraphElement content).

Definition new_SentenceElement : ContentList := [].

Definition SentenceElement_text (text : string) (content : ContentList)
  : ContentList := content ++ [inl text].

Definition SentenceElement_addElement (element : SSMLElement)
  (content : ContentList) : ContentList := content ++ [inr element].

Definition SentenceElement_render (content : ContentList) : string :=
  render (SentenceElement content).

(** A LangElement has the fields lang and content. *)
Record LangElement_state := {
  lang_lang : string;
  lang_content : ContentList
}.

Definition new_LangElement (lang : string) : LangElement_state :=
  {| lang_lang := lang; lang_content := [] |}.

Definition LangElement_text (text : string) (this : LangElement_state)
  : LangElement_state :=
  {| lang_lang := lang_lang this; lang_content := lang_content this ++ [inl text] |}.

Definition LangElement_addElement (element : SSMLElement)
  (this : LangElement_state) : LangElement_state :=
  {| lang_lang := lang_lang this;
     lang_content := lang_content this ++ [inr element] |}.

Definition LangElement_render (this : LangElement_state) : string :=
  render (LangElement (lang_lang this) (lang_content this)).

(** ** src/builders/SentenceBuilder.ts and ParagraphBuilder.ts

    Each wraps one private container, so its state is the content of that
    container. *)

Definition SentenceBuilder_text (text : string) (sentence : ContentList)
  : ContentList := SentenceElement_text text sentence.

Definition SentenceBuilder_break (options : option (BreakOptions + string))
  (sentence : ContentList) : ContentList :=
  let breakElement :=
    match options with
    | Some (inr s) => BreakElement (Some {| strength := None; time := Some s |})
    | Some (inl o) => BreakElement (Some o)
    | None => BreakElement None
    end in
  SentenceElement_addElement breakElement sentence.

Definition SentenceBuilder_emphasis (text : string)
  (level : option EmphasisLevel) (sentence : ContentList) : ContentList :=
  SentenceElement_addElement (EmphasisElement text level) sentence.

Definition SentenceBuilder_phoneme (text : string) (options : PhonemeOptions)
  (sentence : ContentList) : ContentList :=
  SentenceElement_addElement (PhonemeElement text options) sentence.

Definition SentenceBuilder_prosody (text : string) (options : ProsodyOptions)
  (sentence : ContentList) : ContentList :=
  SentenceElement_addElement (ProsodyElement text options) sentence.

Definition SentenceBuilder_sayAs (text : string) (options : SayAsOptions)
  (sentence : ContentList) : ContentList :=
  SentenceElement_addElement (SayAsElement text options) sentence.

Definition SentenceBuilder_sub (original alias : string) (sentence : ContentList)
  : ContentList := SentenceElement_addElement (SubElement original alias) sentence.

Definition SentenceBuilder_render (sentence : ContentList) : string :=
  SentenceElement_render sentence.

Definition ParagraphBuilder_text (text : string) (paragraph : ContentList)
  : ContentList := ParagraphElement_text text paragraph.

(** sentence(callback): the callback runs on a fresh SentenceElement, which
    is then added; the callback is given by what it leaves in the
    sentence. *)
Definition ParagraphBuilder_sentence (callback : ContentList -> ContentList)
  (paragraph : ContentList) : ContentList :=
  let sentenceElement := callback new_SentenceElement in
  ParagraphElement_addElement (SentenceElement sentenceElement) paragraph.

Definition ParagraphBuilder_sayAs (text : string) (options : SayAsOptions)
  (paragraph : ContentList) : ContentList :=
  ParagraphElement_sayAs text options paragraph.

Definition ParagraphBuilder_sub (original alias : string)
  (paragraph : ContentList) : ContentList :=
  ParagraphElement_sub original alias paragraph.

Definition ParagraphBuilder_emphasis (text : string)
  (level : option EmphasisLevel) (paragraph : ContentList) : ContentList :=
  ParagraphElement_emphasis text level paragraph.

Definition ParagraphBuilder_break (options : option (BreakOptions + string))
  (paragraph : ContentList) : ContentList :=
  ParagraphElement_break options paragraph.

Definition ParagraphBuilder_phoneme (text : string) (options : PhonemeOptions)
  (paragraph : ContentList) : ContentList :=
  ParagraphElement_phoneme text options paragraph.

Definition ParagraphBuilder_prosody (text : string) (options : ProsodyOptions)
  (paragraph : ContentList) : ContentList :=
  ParagraphElement_prosody text options paragraph.

Definition ParagraphBuilder_audio (src : string) (fallbackText : option string)
  (paragraph : ContentList) : ContentList :=
  ParagraphElement_audio src fallbackText paragraph.

Definition ParagraphBuilder_render (paragraph : ContentList) : string :=
  ParagraphElement_render paragraph.

(** ** The methods of the three containers, as a program calls them in
    sequence *)

Inductive ParagraphElement_method :=
| pm_text (text : string)
| pm_addElement (element : SSMLElement)
| pm_sayAs (text : string) (options : SayAsOptions)
| pm_sub (original alias : string)
| pm_emphasis (text : string) (level : option EmphasisLevel)
| pm_break (options : option (BreakOptions + string))
| pm_phoneme (text : string) (options : PhonemeOptions)
| pm_prosody (text : string) (options : ProsodyOptions)
| pm_audio (src : string) (fallbackText : option string).

Definition ParagraphElement_exec (content : ContentList)
  (m : ParagraphElement_method) : ContentList :=
  match m with
  | pm_text text => ParagraphElement_text text content
  | pm_addElement element => ParagraphElement_addElement element content
  | pm_sayAs text options => ParagraphElement_sayAs text options content
  | pm_sub original alias => ParagraphElement_sub original alias content
  | pm_emphasis text level => ParagraphElement_emphasis text level content
  | pm_break options => ParagraphElement_break options content
  | pm_phoneme text options => ParagraphElement_phoneme text options content
  | pm_prosody text options => ParagraphElement_prosody text options content
  | pm_audio src fallbackText => ParagraphElement_audio src fallbackText content
  end.

Inductive SentenceElement_method :=
| sem_text (text : string)
| sem_addElement (element : SSMLElement).

Definition SentenceElement_exec (content : ContentList)
  (m : SentenceElement_method) : ContentList :=
  match m with
  | sem_text text => SentenceElement_text text content
  | sem_addElement element => SentenceElement_addElement element content
  end.

Inductive LangElement_method :=
| lm_text (text : string)
| lm_addElement (element : SSMLElement).

Definition LangElement_exec (this : LangElement_state) (m : LangElement_method)
  : LangElement_state :=
  match m with
  | lm_text text => LangElement_text text this
  | lm_addElement element => LangElement_addElement element this
  end.

(** ** The objects that are shared: SSMLBuilder and VoiceBuilder

    An SSMLBuilder keeps references to the VoiceBuilders it created, and
    a VoiceBuilder keeps a reference to its parent, while the caller holds
    references to both and goes on calling their methods. These objects
    live in a heap and are named by their addresses. *)

Abbreviation loc := nat (only parsing).

(** class VoiceBuilder: content, options and the optional parent. *)
Record VoiceBuilder := {
  vb_content : ContentList;
  vb_options : VoiceOptions;
  vb_parent : option loc
}.

(** class SSMLBuilder: elements holds the addresses of VoiceBuilders (voice()
    is the only method that pushes onto it); options is the object the
    constructor assembled; the two directives hold the options and the url
    of a BackgroundAudioElement and of a VoiceConversionElement. *)
Record SSMLBuilder := {
  elements : list loc;
  options : SSMLOptions;
  _backgroundAudio : option BackgroundAudioOptions;
  _voiceConversion : option string
}.

Record Heap := {
  builders : list SSMLBuilder;
  voices : list VoiceBuilder
}.

Definition empty_heap : Heap := {| builders := []; voices := [] |}.

(** How a call ends: it returns a value, it throws new Error(message), or
    it was given an address that the heap does not hold. *)
Inductive outcome (A : Type) :=
| Returns (a : A)
| Throws (message : string)
| Dangling.
Arguments Returns {A} a.
Arguments Throws {A} message.
Arguments Dangling {A}.

Definition M (A : Type) : Type := Heap -> outcome A * Heap.

Definition ret {A} (a : A) : M A := fun h => (Returns a, h).

Definition bind {A B} (m : M A) (k : A -> M B) : M B :=
  fun h =>
    match m h with
    | (Returns a, h') => k a h'
    | (Throws message, h') => (Throws message, h')
    | (Dangling, h') => (Dangling, h')
    end.

Notation "x <- m ;; k" := (bind m (fun x => k))
  (at level 100, m at next level, right associativity).
Notation "m ;;; k" := (bind m (fun _ => k))
  (at level 100, right associativity).

Definition throw {A} (message : string) : M A := fun h => (Throws message, h).

Definition get_voice (v : loc) : M VoiceBuilder :=
  fun h =>
    match voices h !! v with
    | Some vb => (Returns vb, h)
    | None => (Dangling, h)
    end.

Definition set_voice (v : loc) (vb : VoiceBuilder) : M unit :=
  fun h => (Returns (), {| builders := builders h; voices := <[v := vb]> (voices h) |}).

Definition alloc_voice (vb : VoiceBuilder) : M loc :=
  fun h =>
    (Returns (length (voices h)),
     {| builders := builders h; voices := voices h ++ [vb] |}).

Definition get_builder (b : loc) : M SSMLBuilder :=
  fun h =>
    match builders h !! b with
    | Some obj => (Returns obj, h)
    | None => (Dangling, h)
    end.

Definition set_builder (b : loc) (obj : SSMLBuilder) : M unit :=
  fun h => (Returns (), {| builders := <[b := obj]> (builders h); voices := voices h |}).

Definition alloc_builder (obj : SSMLBuilder) : M loc :=
  fun h =>
    (Returns (length (builders h)),
     {| builders := builders h ++ [obj]; voices := voices h |}).

(** xs.map(f) for an f that reads the heap. *)
Fixpoint mapM {A B} (f : A -> M B) (xs : list A) : M (list B) :=
  match xs with
  | [] => ret []
  | x :: rest => y <- f x ;; ys <- mapM f rest ;; ret (y :: ys)
  end.

(** *** src/builders/VoiceBuilder.ts: class VoiceBuilder *)

Definition new_VoiceBuilder (options : VoiceOptions) (parent : option loc)
  : M loc :=
  alloc_voice {| vb_content := []; vb_options := options; vb_parent := parent |}.

(** this.content.push(c); return this; *)
Definition VoiceBuilder_push (this : loc) (c : string + SSMLElement) : M loc :=
  vb <- get_voice this ;;
  set_voice this
    {| vb_content := vb_content vb ++ [c];
       vb_options := vb_options vb;
       vb_parent := vb_parent vb |} ;;;
  ret this.

Definition VoiceBuilder_text (this : loc) (text : string) : M loc :=
  VoiceBuilder_push this (inl text).

Definition VoiceBuilder_break (this : loc) (options : option (BreakOptions + string))
  : M loc :=
  match options with
  | Some (inr s) =>
      VoiceBuilder_push this
        (inr (BreakElement (Some {| strength := None; time := Some s |})))
  | Some (inl o) => VoiceBuilder_push this (inr (BreakElement (Some o)))
  | None => VoiceBuilder_push this (inr (BreakElement None))
  end.

Definition VoiceBuilder_silence (this : loc) (options : SilenceOptions) : M loc :=
  VoiceBuilder_push this (inr (SilenceElement options)).

(** paragraph(callback), sentence(callback), lang(lang, callback): the
    callback runs on a fresh container before the container is pushed; it
    is given by what it leaves in the container. *)
Definition VoiceBuilder_paragraph (this : loc)
  (callback : ContentList -> ContentList) : M loc :=
  let paragraphElement := callback new_ParagraphElement in
  VoiceBuilder_push this (inr (ParagraphElement paragraphElement)).

Definition VoiceBuilder_sentence (this : loc)
  (callback : ContentList -> ContentList) : M loc :=
  let sentenceElement := callback new_SentenceElement in
  VoiceBuilder_push this (inr (SentenceElement sentenceElement)).

Definition VoiceBuilder_emphasis (this : loc) (text : string)
  (level : option EmphasisLevel) : M loc :=
  VoiceBuilder_push this (inr (EmphasisElement text level)).

Definition VoiceBuilder_prosody (this : loc) (text : string)
  (options : ProsodyOptions) : M loc :=
  VoiceBuilder_push this (inr (ProsodyElement text options)).

Definition VoiceBuilder_expressAs (this : loc) (text : string)
  (options : ExpressAsOptions) : M loc :=
  VoiceBuilder_push this (inr (ExpressAsElement text options)).

Definition VoiceBuilder_sayAs (this : loc) (text : string)
  (options : SayAsOptions) : M loc :=
  VoiceBuilder_push this (inr (SayAsElement text options)).

Definition VoiceBuilder_bookmark (this : loc) (mark : string) : M loc :=
  VoiceBuilder_push this (inr (BookmarkElement mark)).

Definition VoiceBuilder_audio (this : loc) (src : string)
  (fallbackText : option string) : M loc :=
  VoiceBuilder_push this (inr (AudioElement src fallbackText)).

Definition VoiceBuilder_sub (this : loc) (original alias : string) : M loc :=
  VoiceBuilder_push this (inr (SubElement original alias)).

Definition VoiceBuilder_phoneme (this : loc) (text : string)
  (options : PhonemeOptions) : M loc :=
  VoiceBuilder_push this (inr (PhonemeElement text options)).

Definition VoiceBuilder_lang (this : loc) (lang : string)
  (callback : LangElement_state -> LangElement_state) : M loc :=
  let element := callback (new_LangElement lang) in
  VoiceBuilder_push this
    (inr (LangElement (lang_lang element) (lang_content element))).

Definition VoiceBuilder_lexicon (this : loc) (uri : string) : M loc :=
  VoiceBuilder_push this (inr (LexiconElement uri)).

Definition VoiceBuilder_math (this : loc) (mathML : string) : M loc :=
  VoiceBuilder_push this (inr (MathElement mathML)).

Definition VoiceBuilder_audioDuration (this : loc) (value : string) : M loc :=
  VoiceBuilder_push this (inr (AudioDurationElement value)).

Definition VoiceBuilder_ttsEmbedding (this : loc) (speakerProfileId text : string)
  : M loc :=
  VoiceBuilder_push this (inr (TTSEmbeddingElement speakerProfileId text)).

Definition VoiceBuilder_viseme (this : loc) (type : string) : M loc :=
  VoiceBuilder_push this (inr (VisemeElement type)).

(** render(), on the fields of the object. *)
Definition VoiceBuilder_render_fields (vb : VoiceBuilder) : string :=
  let attrs := [attr "name" (name (vb_options vb))] in
  let attrs := push_attr "effect" (effect (vb_options vb)) attrs in
  let contentStr := render_content render (vb_content vb) in
  "<voice " +:+ JS.join " " attrs +:+ ">" +:+ contentStr +:+ "</voice>".

Definition VoiceBuilder_render (this : loc) : M string :=
  vb <- get_voice this ;;
  ret (VoiceBuilder_render_fields vb).

(** *** src/core/SSMLBuilder.ts: class SSMLBuilder *)

Definition new_SSMLBuilder (options : SSMLOptions) : M loc :=
  alloc_builder
    {| elements := [];
       options :=
         {| version := spread "1.0" (version options);
            xmlns := spread "http://www.w3.org/2001/10/synthesis" (xmlns options);
            xmlnsMstts :=
              spread "https://www.w3.org/2001/mstts" (xmlnsMstts options);
            lang := lang options |};
       _backgroundAudio := None;
       _voiceConversion := None |}.

Definition SSMLBuilder_voice (this : loc) (name : string) (effect : option string)
  : M loc :=
  voiceBuilder <- new_VoiceBuilder {| name := name; effect := effect |} (Some this) ;;
  obj <- get_builder this ;;
  set_builder this
    {| elements := elements obj ++ [voiceBuilder];
       options := options obj;
       _backgroundAudio := _backgroundAudio obj;
       _voiceConversion := _voiceConversion obj |} ;;;
  ret voiceBuilder.

Definition SSMLBuilder_backgroundAudio (this : loc)
  (options' : BackgroundAudioOptions) : M loc :=
  obj <- get_builder this ;;
  set_builder this
    {| elements := elements obj;
       options := options obj;
       _backgroundAudio := Some options';
       _voiceConversion := _voiceConversion obj |} ;;;
  ret this.

Definition SSMLBuilder_voiceConversion (this : loc) (url : string) : M loc :=
  obj <- get_builder this ;;
  set_builder this
    {| elements := elements obj;
       options := options obj;
       _backgroundAudio := _backgroundAudio obj;
       _voiceConversion := Some url |} ;;;
  ret this.

Definition indent : string := JS.nl +:+ "    ".

Definition SSMLBuilder_build (this : loc) : M string :=
  obj <- get_builder this ;;
  let attrs :=
    JS.join " "
      [attr "version" (JS.template (read (version (options obj))));
       attr "xmlns" (JS.template (read (xmlns (options obj))));
       attr "xmlns:mstts" (JS.template (read (xmlnsMstts (options obj))));
       attr "xml:lang" (lang (options obj))] in
  let content := EmptyString in
  let content :=
    match _backgroundAudio obj with
    | Some o => content +:+ indent +:+ render (BackgroundAudioElement o)
    | None => content
    end in
  let content :=
    match _voiceConversion obj with
    | Some url => content +:+ indent +:+ render (VoiceConversionElement url)
    | None => content
    end in
  rendered <-
    mapM (fun el => r <- VoiceBuilder_render el ;; ret (indent +:+ r))
      (elements obj) ;;
  let content := content +:+ JS.join EmptyString rendered in
  ret ("<speak " +:+ attrs +:+ ">" +:+ content +:+ JS.nl +:+ "</speak>").

(** *** src/builders/VoiceBuilder.ts: the two methods that go through the parent *)

Definition VoiceBuilder_build (this : loc) : M string :=
  vb <- get_voice this ;;
  match vb_parent vb with
  | None => throw "VoiceBuilder must be created from SSMLBuilder to use build()"
  | Some parent => SSMLBuilder_build parent
  end.

Definition VoiceBuilder_voice (this : loc) (name : string) (effect : option string)
  : M loc :=
  vb <- get_voice this ;;
  match vb_parent vb with
  | None => throw "VoiceBuilder must be created from SSMLBuilder to chain voices"
  | Some parent => SSMLBuilder_voice parent name effect
  end.

(** ** The calls a program can make on the two builders *)

Inductive VoiceBuilder_method :=
| vm_text (text : string)
| vm_break (options : option (BreakOptions + string))
| vm_silence (options : SilenceOptions)
| vm_paragraph (callback : ContentList -> ContentList)
| vm_sentence (callback : ContentList -> ContentList)
| vm_emphasis (text : string) (level : option EmphasisLevel)
| vm_prosody (text : string) (options : ProsodyOptions)
| vm_expressAs (text : string) (options : ExpressAsOptions)
| vm_sayAs (text : string) (options : SayAsOptions)
| vm_bookmark (mark : string)
| vm_audio (src : string) (fallbackText : option string)
| vm_sub (original alias : string)
| vm_phoneme (text : string) (options : PhonemeOptions)
| vm_lang (lang : string) (callback : LangElement_state -> LangElement_state)
| vm_lexicon (uri : string)
| vm_math (mathML : string)
| vm_audioDuration (value : string)
| vm_ttsEmbedding (speakerProfileId text : string)
| vm_viseme (type : string)
| vm_build
| vm_voice (name : string) (effect : option string)
| vm_render.

Inductive SSMLBuilder_method :=
| sm_voice (name : string) (effect : option string)
| sm_backgroundAudio (options : BackgroundAudioOptions)
| sm_voiceConversion (url : string)
| sm_build.

Inductive Call :=
| call_new_SSMLBuilder (options : SSMLOptions)
| call_new_VoiceBuilder (options : VoiceOptions) (parent : option loc)
| call_SSMLBuilder (this : loc) (m : SSMLBuilder_method)
| call_VoiceBuilder (this : loc) (m : VoiceBuilder_method).

(** What a call returns: a reference to a builder or a string. *)
Inductive value :=
| v_ref (l : loc)
| v_string (s : string).

Definition returning {A} (f : A -> value) (m : M A) : M value :=
  a <- m ;; ret (f a).

Definition VoiceBuilder_exec (this : loc) (m : VoiceBuilder_method) : M value :=
  match m with
  | vm_text text => returning v_ref (VoiceBuilder_text this text)
  | vm_break options => returning v_ref (VoiceBuilder_break this options)
  | vm_silence options => returning v_ref (VoiceBuilder_silence this options)
  | vm_paragraph callback => returning v_ref (VoiceBuilder_paragraph this callback)
  | vm_sentence callback => returning v_ref (VoiceBuilder_sentence this callback)
  | vm_emphasis text level => returning v_ref (VoiceBuilder_emphasis this text level)
  | vm_prosody text options => returning v_ref (VoiceBuilder_prosody this text options)
  | vm_expressAs text options =>
      returning v_ref (VoiceBuilder_expressAs this text options)
  | vm_sayAs text options => returning v_ref (VoiceBuilder_sayAs this text options)
  | vm_bookmark mark => returning v_ref (VoiceBuilder_bookmark this mark)
  | vm_audio src fallbackText =>
      returning v_ref (VoiceBuilder_audio this src fallbackText)
  | vm_sub original alias => returning v_ref (VoiceBuilder_sub this original alias)
  | vm_phoneme text options => returning v_ref (VoiceBuilder_phoneme this text options)
  | vm_lang lang callback => returning v_ref (VoiceBuilder_lang this lang callback)
  | vm_lexicon uri => returning v_ref (VoiceBuilder_lexicon this uri)
  | vm_math mathML => returning v_ref (VoiceBuilder_math this mathML)
  | vm_audioDuration value => returning v_ref (VoiceBuilder_audioDuration this value)
  | vm_ttsEmbedding speakerProfileId text =>
      returning v_ref (VoiceBuilder_ttsEmbedding this speakerProfileId text)
  | vm_viseme type => returning v_ref (VoiceBuilder_viseme this type)
  | vm_build => returning v_string (VoiceBuilder_build this)
  | vm_voice name effect => returning v_ref (VoiceBuilder_voice this name effect)
  | vm_render => returning v_string (VoiceBuilder_render this)
  end.

Definition SSMLBuilder_exec (this : loc) (m : SSMLBuilder_method) : M value :=
  match m with
  | sm_voice name effect => returning v_ref (SSMLBuilder_voice this name effect)
  | sm_backgroundAudio options =>
      returning v_ref (SSMLBuilder_backgroundAudio this options)
  | sm_voiceConversion url => returning v_ref (SSMLBuilder_voiceConversion this url)
  | sm_build => returning v_string (SSMLBuilder_build this)
  end.

Definition exec (c : Call) : M value :=
  match c with
  | call_new_SSMLBuilder options => returning v_ref (new_SSMLBuilder options)
  | call_new_VoiceBuilder options parent =>
      returning v_ref (new_VoiceBuilder options parent)
  | call_SSMLBuilder this m => SSMLBuilder_exec this m
  | call_VoiceBuilder this m => VoiceBuilder_exec this m
  end.

(** The heap after a program made the calls of [cs], in this order, from
    the heap [h]; a call that throws leaves the heap as it is at the throw
    and the program goes on (it caught the error). *)
Definition run (cs : list Call) (h : Heap) : Heap :=
  foldl (fun h c => (exec c h).2) h cs.

(** The calls of a method list on one VoiceBuilder. *)
Definition on_voice (this : loc) (ms : list VoiceBuilder_method) : list Call :=
  call_VoiceBuilder this <$> ms.

(** The references a program can hold are to objects it created: every
    address stored in the heap, and every address a call is given, is the
    address of an object of the heap. *)
Definition elements_valid (h : Heap) : Prop :=
  forall b obj v, builders h !! b = Some obj -> v ∈ elements obj ->
    v < length (voices h).

Definition parents_valid (h : Heap) : Prop :=
  forall v vb p, voices h !! v = Some vb -> vb_parent vb = Some p ->
    p < length (builders h).

Definition heap_wf (h : Heap) : Prop := elements_valid h /\ parents_valid h.

(** A computation that leaves the heap as it found it. *)
Definition readonly {A} (m : M A) : Prop := forall h, (m h).2 = h.



(** The objects the mutating methods leave behind. *)
Definition with_content (vb : VoiceBuilder) (c : string + SSMLElement)
  : VoiceBuilder :=
  {| vb_content := vb_content vb ++ [c];
     vb_options := vb_options vb;
     vb_parent := vb_parent vb |}.

Definition with_element (obj : SSMLBuilder) (v : loc) : SSMLBuilder :=
  {| elements := elements obj ++ [v];
     options := options obj;
     _backgroundAudio := _backgroundAudio obj;
     _voiceConversion := _voiceConversion obj |}.

Definition with_backgroundAudio (obj : SSMLBuilder) (o : BackgroundAudioOptions)
  : SSMLBuilder :=
  {| elements := elements obj;
     options := options obj;
     _backgroundAudio := Some o;
     _voiceConversion := _voiceConversion obj |}.

Definition with_voiceConversion (obj : SSMLBuilder) (url : string) : SSMLBuilder :=
  {| elements := elements obj;
     options := options obj;
     _backgroundAudio := _backgroundAudio obj;
     _voiceConversion := Some url |}.

(** The ways in which one call changes the heap: not at all; an entry
    pushed onto the content of a VoiceBuilder; a VoiceBuilder created; a
    VoiceBuilder created and registered with its parent; a directive of an
    SSMLBuilder set; an SSMLBuilder created. *)
Inductive heap_step (h : Heap) : Heap -> Prop :=
| step_none : heap_step h h
| step_push v vb c :
    voices h !! v = Some vb ->
    heap_step h
      {| builders := builders h; voices := <[v := with_content vb c]> (voices h) |}
| step_new_voice vb :
    heap_step h {| builders := builders h; voices := voices h ++ [vb] |}
| step_register b obj vb :
    builders h !! b = Some obj ->
    heap_step h
      {| builders := <[b := with_element obj (length (voices h))]> (builders h);
         voices := voices h ++ [vb] |}
| step_directive b obj obj' :
    builders h !! b = Some obj ->
    elements obj' = elements obj ->
    options obj' = options obj ->
    heap_step h {| builders := <[b := obj']> (builders h); voices := voices h |}
| step_new_builder obj :
    elements obj = [] ->
    heap_step h {| builders := builders h ++ [obj]; voices := voices h |}.


(** The heap [h'] holds every object of [h], with the fields that are
    never reassigned unchanged and the two arrays at most grown at their
    end. *)
Definition heap_grows (h h' : Heap) : Prop :=
  (forall v vb, voices h !! v = Some vb ->
     exists vb', voices h' !! v = Some vb'
       /\ vb_parent vb' = vb_parent vb /\ vb_options vb' = vb_options vb
       /\ vb_content vb `prefix_of` vb_content vb')
  /\ (forall b obj, builders h !! b = Some obj ->
     exists obj', builders h' !! b = Some obj'
       /\ options obj' = options obj
       /\ elements obj `prefix_of` elements obj').

(** ** The shape of the document, in the words of the spec *)

Module DocumentSpec.

(** Concatenation with nothing between the pieces. *)
Definition concat (pieces : list string) : string :=
  foldr String.append EmptyString pieces.

(** An entry of a content list as it is rendered: a text run escaped, a
    node rendered. *)
Definition entry (c : string + SSMLElement) : string :=
  match c with
  | inl text => Xml.escapeXml text
  | inr node => render node
  end.

(** The opening tag of the document: four attributes in the order version,
    xmlns, xmlns:mstts, xml:lang. *)
Definition speak_open (version xmlns xmlnsMstts lang : string) : string :=
  "<speak version=" +:+ JS.dq +:+ version +:+ JS.dq
  +:+ " xmlns=" +:+ JS.dq +:+ xmlns +:+ JS.dq
  +:+ " xmlns:mstts=" +:+ JS.dq +:+ xmlnsMstts +:+ JS.dq
  +:+ " xml:lang=" +:+ JS.dq +:+ lang +:+ JS.dq +:+ ">".

(** A child of the document: a newline, four spaces, the child. *)
Definition child (rendered : string) : string :=
  JS.nl +:+ "    " +:+ rendered.

(** The children of the document, in order: the background-audio directive
    if set, the voice-conversion directive if set, the voice sections. *)
Definition children (backgroundAudio voiceConversion : option string)
  (sections : list string) : list string :=
  option_list backgroundAudio ++ option_list voiceConversion ++ sections.

Definition document (version xmlns xmlnsMstts lang : string)
  (backgroundAudio voiceConversion : option string) (sections : list string)
  : string :=
  speak_open version xmlns xmlnsMstts lang
  +:+ concat (child <$> children backgroundAudio voiceConversion sections)
  +:+ JS.nl +:+ "</speak>".

(** The opening tag of a voice section. *)
Definition voice_open (options : VoiceOptions) : string :=
  match effect options with
  | Some e =>
      if String.eqb e EmptyString
      then "<voice name=" +:+ JS.dq +:+ name options +:+ JS.dq +:+ ">"
      else "<voice name=" +:+ JS.dq +:+ name options +:+ JS.dq
           +:+ " effect=" +:+ JS.dq +:+ e +:+ JS.dq +:+ ">"
  | None => "<voice name=" +:+ JS.dq +:+ name options +:+ JS.dq +:+ ">"
  end.

(** A voice section: the opening tag, the entries of its content in order
    with nothing between them, the closing tag. *)
Definition voice_section (vb : VoiceBuilder) : string :=
  voice_open (vb_options vb) +:+ concat (entry <$> vb_content vb) +:+ "</voice>".

(** The document of a builder whose voice sections are [sections]. *)
Definition document_of (obj : SSMLBuilder) (sections : list VoiceBuilder)
  : string :=
  document
    (JS.template (read (version (options obj))))
    (JS.template (read (xmlns (options obj))))
    (JS.template (read (xmlnsMstts (options obj))))
    (lang (options obj))
    (BackgroundAudioElement_render <$> _backgroundAudio obj)
    (VoiceConversionElement_render <$> _voiceConversion obj)
    (voice_section <$> sections).

(** The entry a content method of VoiceBuilder appends, [None] for the
    three methods that append nothing (build, voice, render). *)
Definition appended (m : VoiceBuilder_method) : option (string + SSMLElement) :=
  match m with
  | vm_text text => Some (inl text)
  | vm_break None => Some (inr (BreakElement None))
  | vm_break (Some (inl o)) => Some (inr (BreakElement (Some o)))
  | vm_break (Some (inr s)) =>
      Some (inr (BreakElement (Some {| strength := None; time := Some s |})))
  | vm_silence options => Some (inr (SilenceElement options))
  | vm_paragraph callback => Some (inr (ParagraphElement (callback [])))
  | vm_sentence callback => Some (inr (SentenceElement (callback [])))
  | vm_emphasis text level => Some (inr (EmphasisElement text level))
  | vm_prosody text options => Some (inr (ProsodyElement text options))
  | vm_expressAs text options => Some (inr (ExpressAsElement text options))
  | vm_sayAs text options => Some (inr (SayAsElement text options))
  | vm_bookmark mark => Some (inr (BookmarkElement mark))
  | vm_audio src fallbackText => Some (inr (AudioElement src fallbackText))
  | vm_sub original alias => Some (inr (SubElement original alias))
  | vm_phoneme text options => Some (inr (PhonemeElement text options))
  | vm_lang lang callback =>
      let element := callback {| lang_lang := lang; lang_content := [] |} in
      Some (inr (LangElement (lang_lang element) (lang_content element)))
  | vm_lexicon uri => Some (inr (LexiconElement uri))
  | vm_math mathML => Some (inr (MathElement mathML))
  | vm_audioDuration value => Some (inr (AudioDurationElement value))
  | vm_ttsEmbedding speakerProfileId text =>
      Some (inr (TTSEmbeddingElement speakerProfileId text))
  | vm_viseme type => Some (inr (VisemeElement type))
  | vm_build | vm_voice _ _ | vm_render => None
  end.

(** The voice sections a builder registered, in registration order. *)
Definition sections (h : Heap) (obj : SSMLBuilder) : list VoiceBuilder :=
  omap (fun v => voices h !! v) (elements obj).

(** The entry each method of a ParagraphElement appends. *)
Definition paragraph_appended (m : ParagraphElement_method)
  : string + SSMLElement :=
  match m with
  | pm_text text => inl text
  | pm_addElement element => inr element
  | pm_sayAs text options => inr (SayAsElement text options)
  | pm_sub original alias => inr (SubElement original alias)
  | pm_emphasis text level => inr (EmphasisElement text level)
  | pm_break None => inr (BreakElement None)
  | pm_break (Some (inl o)) => inr (BreakElement (Some o))
  | pm_break (Some (inr s)) =>
      inr (BreakElement (Some {| strength := None; time := Some s |}))
  | pm_phoneme text options => inr (PhonemeElement text options)
  | pm_prosody text options => inr (ProsodyElement text options)
  | pm_audio src fallbackText => inr (AudioElement src fallbackText)
  end.

Definition sentence_appended (m : SentenceElement_method)
  : string + SSMLElement :=
  match m with
  | sem_text text => inl text
  | sem_addElement element => inr element
  end.

Definition lang_appended (m : LangElement_method) : string + SSMLElement :=
  match m with
  | lm_text text => inl text
  | lm_addElement element => inr element
  end.

End DocumentSpec.

(** ** A small program, after tests/SSMLBuilder.test.ts

    new SSMLBuilder({ lang: 'en-US' }).voice('en-US-AvaNeural')
    .text('Hello, world!'), and beside it a VoiceBuilder constructed without
    a parent. *)

Definition example_options : SSMLOptions :=
  {| version := None; xmlns := None; xmlnsMstts := None; lang := "en-US" |}.

Definition example_calls : list Call :=
  [call_new_SSMLBuilder example_options;
   call_SSMLBuilder 0 (sm_voice "en-US-AvaNeural" None);
   call_VoiceBuilder 0 (vm_text "Hello, world!");
   call_new_VoiceBuilder {| name := "en-US-AndrewNeural"; effect := None |} None].

Definition example_builder : SSMLBuilder :=
  {| elements := [0];
     options :=
       {| version := Some (Some "1.0");
          xmlns := Some (Some "http://www.w3.org/2001/10/synthesis");
          xmlnsMstts := Some (Some "https://www.w3.org/2001/mstts");
          lang := "en-US" |};
     _backgroundAudio := None;
     _voiceConversion := None |}.

Definition example_voice : VoiceBuilder :=
  {| vb_content := [inl "Hello, world!"];
     vb_options := {| name := "en-US-AvaNeural"; effect := None |};
     vb_parent := Some 0 |}.

Definition example_standalone : VoiceBuilder :=
  {| vb_content := [];
     vb_options := {| name := "en-US-AndrewNeural"; effect := None |};
     vb_parent := None |}.

Definition example_heap : Heap :=
  {| builders := [example_builder];
     voices := [example_voice; example_standalone] |}.

Definition example_speak_open : string :=
  "<speak version=" +:+ JS.dq +:+ "1.0" +:+ JS.dq
  +:+ " xmlns=" +:+ JS.dq +:+ "http://www.w3.org/2001/10/synthesis" +:+ JS.dq
  +:+ " xmlns:mstts=" +:+ JS.dq +:+ "https://www.w3.org/2001/mstts" +:+ JS.dq
  +:+ " xml:lang=" +:+ JS.dq +:+ "en-US" +:+ JS.dq +:+ ">".

Definition example_document : string :=
  example_speak_open
  +:+ JS.nl +:+ "    <voice name=" +:+ JS.dq +:+ "en-US-AvaNeural" +:+ JS.dq +:+ ">"
  +:+ "Hello, world!</voice>"
  +:+ JS.nl +:+ "</speak>".

(** ** What the validators of src/utils/xml.ts accept, in words *)

Module ValidationSpec.

(** One or more digits. *)
Definition digits (s : string) : Prop :=
  s <> EmptyString /\ Regex.all_chars Regex.digit s = true.

(** Digits, then optionally a point and digits. *)
Definition decimal (s : string) : Prop :=
  exists i f, s = i +:+ f /\ digits i
    /\ (f = EmptyString \/ exists d, f = "." +:+ d /\ digits d).

(** Nothing, a plus or a minus. *)
Definition sign (s : string) : Prop :=
  s = EmptyString \/ s = "+" \/ s = "-".

Definition duration (v : string) : Prop :=
  exists n u, v = n +:+ u /\ decimal n /\ (u = "ms" \/ u = "s").

Definition volume (v : string) : Prop :=
  (exists g n, v = g +:+ n +:+ "dB" /\ sign g /\ decimal n)
  \/ (exists n u, v = n +:+ u /\ decimal n /\ (u = EmptyString \/ u = "%"))
  \/ In v ["silent"; "x-soft"; "soft"; "medium"; "loud"; "x-loud"].

Definition rate (v : string) : Prop :=
  (exists g n u, v = g +:+ n +:+ u /\ sign g /\ decimal n
     /\ (u = EmptyString \/ u = "%"))
  \/ In v ["x-slow"; "slow"; "medium"; "fast"; "x-fast"].

Definition pitch (v : string) : Prop :=
  (exists g n u, v = g +:+ n +:+ u /\ sign g /\ decimal n
     /\ (u = "Hz" \/ u = "%"))
  \/ In v ["x-low"; "low"; "medium"; "high"; "x-high"].

(** A character that is none of the five reserved ones. *)
Definition unreserved (a : ascii) : bool := negb (EscapeSpec.reserved a).

(** A value that one of the seven validators accepts. *)
Definition validated (v : string) : bool :=
  Xml.isValidBreakStrength v || Xml.isValidSilenceType v
  || Xml.isValidEmphasisLevel v || Xml.isValidDuration v
  || Xml.isValidVolume v || Xml.isValidRate v || Xml.isValidPitch v.

End ValidationSpec.

(** ** Optional attributes, written once for all nodes *)

Module AttributeSpec.

(** No entry of the object holds a string. *)
Definition all_undefined (attrs : list (string * option string)) : bool :=
  forallb (fun '(_, value) => bool_decide (value = None)) attrs.

(** The entries that hold a string. *)
Definition defined_entries (attrs : list (string * option string))
  : list (string * option string) :=
  List.filter (fun '(_, value) => bool_decide (value <> None)) attrs.

(** An optional value as the node classes read it: the empty string counts
    as missing. *)
Definition given (value : option string) : option string :=
  if JS.truthy value then value else None.

Definition entry (key : string) (value : option string)
  : string * option string := (key, given value).

(** A tag name followed by its attributes, if any. *)
Definition tag_with (tag : string) (attrs : list (string * option string))
  : string :=
  let formatted := Xml.formatAttributes attrs in
  if String.eqb formatted EmptyString then tag else tag +:+ " " +:+ formatted.

(** How often a character occurs in a text. *)
Fixpoint count_char (c : ascii) (s : string) : nat :=
  match s with
  | EmptyString => 0
  | String a rest => (if Ascii.eqb a c then 1 else 0) + count_char c rest
  end.

(** The characters that delimit markup: angle brackets and both quotes. *)
Definition delimiter (c : ascii) : bool :=
  Ascii.eqb c "<" || Ascii.eqb c ">" || Ascii.eqb c "034" || Ascii.eqb c "'".

End AttributeSpec.

(** A content method of VoiceBuilder: one that pushes an entry. *)
Definition content_method (m : VoiceBuilder_method) : Prop :=
  is_Some (DocumentSpec.appended m).

(** The value of an optional key of SSMLOptions in the document: the
    default when the key is missing, the text undefined when the key holds
    undefined. *)
Definition effective (default : string) (given : option (option string))
  : string :=
  match given with
  | None => default
  | Some value => JS.template value
  end.

(** * Properties *)

(** ** Strings and the JavaScript primitives *)

Lemma append_cons (a : ascii) (s t : string) :
  String a s +:+ t = String a (s +:+ t).
Proof. reflexivity. Qed.

Lemma append_empty_r (s : string) : s +:+ EmptyString = s.
Proof.
  induction s as [|a s IH]; [done |]. by rewrite append_cons, IH.
Qed.

Lemma append_assoc (s1 s2 s3 : string) :
  (s1 +:+ s2) +:+ s3 = s1 +:+ (s2 +:+ s3).
Proof.
  induction s1 as [|a s1 IH]; [done |]. by rewrite !append_cons, IH.
Qed.

Lemma length_append (s1 s2 : string) :
  String.length (s1 +:+ s2) = String.length s1 + String.length s2.
Proof.
  induction s1 as [|a s1 IH]; [done |]. rewrite append_cons. simpl. by rewrite IH.
Qed.

Lemma replace_all_append c r s1 s2 :
  JS.replace_all c r (s1 +:+ s2)
  = JS.replace_all c r s1 +:+ JS.replace_all c r s2.
Proof.
  induction s1 as [|a s1 IH]; [done |].
  rewrite append_cons. simpl. rewrite IH.
  destruct (Ascii.eqb a c); [| done].
  by rewrite append_assoc.
Qed.

Lemma join_empty_concat (xs : list string) :
  JS.join EmptyString xs = DocumentSpec.concat xs.
Proof.
  induction xs as [|x [|y xs] IH]; simpl in *.
  - done.
  - by rewrite append_empty_r.
  - by rewrite IH.
Qed.

Lemma concat_app (xs ys : list string) :
  DocumentSpec.concat (xs ++ ys)
  = DocumentSpec.concat xs +:+ DocumentSpec.concat ys.
Proof.
  induction xs as [|x xs IH]; simpl; [done |].
  by rewrite IH, append_assoc.
Qed.

(** ** Escaping *)

Section Escaping.
Import EscapeSpec.

Lemma escapeXml_append (s1 s2 : string) :
  Xml.escapeXml (s1 +:+ s2) = Xml.escapeXml s1 +:+ Xml.escapeXml s2.
Proof. unfold Xml.escapeXml. by rewrite !replace_all_append. Qed.

Lemma escapeXml_char (a : ascii) :
  Xml.escapeXml (String a EmptyString) = entity a.
Proof. destruct a as [[] [] [] [] [] [] [] []]; reflexivity. Qed.

Lemma escapeXml_pass (text : string) : Xml.escapeXml text = escape_pass text.
Proof.
  induction text as [|a rest IH]; [done |].
  change (String a rest) with (String a EmptyString +:+ rest).
  rewrite escapeXml_append, escapeXml_char, IH. done.
Qed.

Lemma SSMLElement_escapeXml_eq (text : string) :
  SSMLElement_escapeXml text = Xml.escapeXml text.
Proof. reflexivity. Qed.

Lemma entity_plain (a : ascii) :
  reserved a = false -> entity a = String a EmptyString.
Proof. destruct a as [[] [] [] [] [] [] [] []]; (reflexivity || discriminate). Qed.

Lemma decode_entity (a : ascii) (rest : string) :
  decode_from None (entity a +:+ rest) = String a <$> decode_from None rest.
Proof. destruct a as [[] [] [] [] [] [] [] []]; reflexivity. Qed.

Lemma decode_escape_pass (text : string) :
  decode (escape_pass text) = Some text.
Proof.
  unfold decode. induction text as [|a rest IH]; [done |].
  simpl. by rewrite decode_entity, IH.
Qed.

Lemma entity_text_escape_pass (text : string) : entity_text (escape_pass text).
Proof.
  induction text as [|a rest IH]; simpl; [constructor |].
  destruct (reserved a) eqn:Hr.
  - by apply et_entity.
  - rewrite (entity_plain a Hr). by apply et_plain.
Qed.

Lemma length_entity (a : ascii) :
  1 <= String.length (entity a)
  /\ (reserved a = true -> 2 <= String.length (entity a)).
Proof.
  destruct a as [[] [] [] [] [] [] [] []]; simpl; split; (lia || discriminate).
Qed.

Lemma length_escape_pass (text : string) :
  String.length text <= String.length (escape_pass text)
  /\ (has_reserved text = true ->
      String.length text < String.length (escape_pass text)).
Proof.
  induction text as [|a rest [IH1 IH2]]; simpl; [split; [lia | discriminate] |].
  rewrite length_append.
  destruct (length_entity a) as (Ha1 & Ha2).
  split; [lia |].
  intros [Hr | Hr]%orb_true_iff; [specialize (Ha2 Hr) | specialize (IH2 Hr)]; lia.
Qed.

Lemma has_reserved_append (s1 s2 : string) :
  has_reserved (s1 +:+ s2) = has_reserved s1 || has_reserved s2.
Proof.
  induction s1 as [|a s1 IH]; [done |].
  rewrite append_cons. simpl. by rewrite IH, orb_assoc.
Qed.

Lemma has_reserved_entity (a : ascii) :
  has_reserved (entity a) = reserved a.
Proof. destruct a as [[] [] [] [] [] [] [] []]; reflexivity. Qed.

Lemma has_reserved_escape_pass (text : string) :
  has_reserved (escape_pass text) = has_reserved text.
Proof.
  induction text as [|a rest IH]; simpl; [done |].
  by rewrite has_reserved_append, has_reserved_entity, IH.
Qed.

End Escaping.

(** C1. For every string T, the empty one included, escapeXml(T) is the
    result of the five substitutions applied one after the other in the
    order ampersand, left angle bracket, right angle bracket, double quote,
    single quote (the method of SSMLElement and the function of
    utils/xml.ts agree); this is one left-to-right pass that replaces each
    reserved character by its entity and leaves every other character as it
    is; escapeXml is a total function; in escapeXml(T) the five reserved
    characters occur only inside the five entity sequences; and decoding
    the entities of escapeXml(T) gives T back. *)
Theorem escapeXml_correct (T : string) :
  Xml.escapeXml T = EscapeSpec.substitute_all T
  /\ SSMLElement_escapeXml T = EscapeSpec.substitute_all T
  /\ Xml.escapeXml T = EscapeSpec.escape_pass T
  /\ Xml.escapeXml EmptyString = EmptyString
  /\ EscapeSpec.entity_text (Xml.escapeXml T)
  /\ EscapeSpec.decode (Xml.escapeXml T) = Some T.
Proof.
  split; [reflexivity |]. split; [reflexivity |].
  split; [apply escapeXml_pass |]. split; [reflexivity |].
  rewrite escapeXml_pass. split.
  - apply entity_text_escape_pass.
  - apply decode_escape_pass.
Qed.

(** C9. Escaping is not idempotent: for every string T in which one of the
    five reserved characters occurs, escaping the escaped text again gives
    a text other than escapeXml(T). *)
Theorem escapeXml_not_idempotent (T : string) :
  EscapeSpec.has_reserved T = true ->
  Xml.escapeXml (Xml.escapeXml T) <> Xml.escapeXml T.
Proof.
  intros HT Heq. rewrite !escapeXml_pass in Heq.
  pose proof (length_escape_pass (EscapeSpec.escape_pass T)) as [_ Hlt].
  rewrite has_reserved_escape_pass in Hlt. specialize (Hlt HT).
  rewrite Heq in Hlt. lia.
Qed.

Lemma escapeXml_not_idempotent_witness :
  EscapeSpec.has_reserved "Tom & Jerry" = true
  /\ Xml.escapeXml (Xml.escapeXml "Tom & Jerry") <> Xml.escapeXml "Tom & Jerry".
Proof.
  split; [reflexivity |].
  apply (escapeXml_not_idempotent "Tom & Jerry"). reflexivity.
Defined.

(** ** Leaf nodes *)

(** Brings both sides of an equation between rendered strings to the
    same bracketing. *)
Ltac same_string :=
  cbn; unfold attr; rewrite ?append_assoc; reflexivity.

Lemma BreakElement_render_time (t : string) :
  t <> EmptyString ->
  render (BreakElement (Some {| strength := None; time := Some t |}))
  = "<break time=" +:+ JS.dq +:+ t +:+ JS.dq +:+ "/>".
Proof.
  intros Ht. destruct t as [|a t]; [congruence |]. same_string.
Qed.

Lemma BreakElement_render_both (s : BreakStrength) (t : string) :
  t <> EmptyString ->
  render (BreakElement (Some {| strength := Some s; time := Some t |}))
  = "<break strength=" +:+ JS.dq +:+ BreakStrength_str s +:+ JS.dq
    +:+ " time=" +:+ JS.dq +:+ t +:+ JS.dq +:+ "/>".
Proof.
  intros Ht. destruct t as [|a t]; [congruence |]. destruct s; same_string.
Qed.

(** C7, as the code has it. A BreakElement constructed with no options, or
    with an empty options object, renders the bare tag; one constructed
    with only a time that is not the empty string renders exactly the
    attribute time; one constructed with a strength and a time that is not
    the empty string renders both, strength first; a time that is the empty
    string is left out like a missing one. *)
Theorem BreakElement_render_cases (s : BreakStrength) (t : string) :
  t <> EmptyString ->
  render (BreakElement None) = "<break/>"
  /\ render (BreakElement (Some {| strength := None; time := None |})) = "<break/>"
  /\ render (BreakElement (Some {| strength := None; time := Some t |}))
     = "<break time=" +:+ JS.dq +:+ t +:+ JS.dq +:+ "/>"
  /\ render (BreakElement (Some {| strength := Some s; time := Some t |}))
     = "<break strength=" +:+ JS.dq +:+ BreakStrength_str s +:+ JS.dq
       +:+ " time=" +:+ JS.dq +:+ t +:+ JS.dq +:+ "/>"
  /\ render (BreakElement (Some {| strength := Some s; time := None |}))
     = "<break strength=" +:+ JS.dq +:+ BreakStrength_str s +:+ JS.dq +:+ "/>"
  /\ render (BreakElement (Some {| strength := None; time := Some EmptyString |}))
     = "<break/>"
  /\ render (BreakElement (Some {| strength := Some s; time := Some EmptyString |}))
     = "<break strength=" +:+ JS.dq +:+ BreakStrength_str s +:+ JS.dq +:+ "/>".
Proof.
  intros Ht. split; [reflexivity |]. split; [reflexivity |].
  split; [by apply BreakElement_render_time |].
  split; [by apply BreakElement_render_both |].
  split; [| split; [reflexivity |]].
  all: destruct s; same_string.
Qed.

Lemma BreakElement_render_cases_witness :
  "500ms" <> EmptyString
  /\ render (BreakElement (Some {| strength := Some bs_medium; time := Some "500ms" |}))
     = "<break strength=" +:+ JS.dq +:+ "medium" +:+ JS.dq
       +:+ " time=" +:+ JS.dq +:+ "500ms" +:+ JS.dq +:+ "/>".
Proof.
  assert ("500ms" <> EmptyString) as Ht by discriminate.
  split; [exact Ht |].
  exact (proj1 (proj2 (proj2 (proj2 (BreakElement_render_cases bs_medium "500ms" Ht))))).
Defined.

(** C7 as stated fails: constructed with only a time, and the time is the
    empty string, a BreakElement renders no attribute at all. *)
Lemma BreakElement_time_only_counterexample :
  render (BreakElement (Some {| strength := None; time := Some EmptyString |}))
  = "<break/>"
  /\ render (BreakElement (Some {| strength := None; time := Some EmptyString |}))
     <> "<break time=" +:+ JS.dq +:+ EmptyString +:+ JS.dq +:+ "/>".
Proof. split; [reflexivity | discriminate]. Qed.

(** C8. A SubElement renders an open and close sub tag whose alias
    attribute holds the alias as it was given and whose body is the escaped
    original text; a BookmarkElement with mark m renders exactly the
    self-closing bookmark tag with m as it was given and no body. *)
Theorem SubElement_BookmarkElement_render (original alias m : string) :
  render (SubElement original alias)
  = "<sub alias=" +:+ JS.dq +:+ alias +:+ JS.dq +:+ ">"
    +:+ Xml.escapeXml original +:+ "</sub>"
  /\ render (BookmarkElement m)
     = "<bookmark mark=" +:+ JS.dq +:+ m +:+ JS.dq +:+ "/>".
Proof.
  split.
  - simpl. unfold SubElement_render. rewrite SSMLElement_escapeXml_eq. same_string.
  - simpl. unfold BookmarkElement_render. same_string.
Qed.

(** C10. For every string s, calling break with the string s and calling it
    with the options object that holds only time: s append the same node
    and leave the same state, hence the same rendered output, on a
    VoiceBuilder (in every heap), on a ParagraphElement, and on the two
    builders that wrap a container. *)
Theorem break_string_overload (s : string) (h : Heap) (this : loc)
  (content : ContentList) :
  let options := {| strength := None; time := Some s |} in
  VoiceBuilder_break this (Some (inr s)) h
  = VoiceBuilder_break this (Some (inl options)) h
  /\ exec (call_VoiceBuilder this (vm_break (Some (inr s)))) h
     = exec (call_VoiceBuilder this (vm_break (Some (inl options)))) h
  /\ VoiceBuilder_break this (Some (inr s)) h
     = VoiceBuilder_push this (inr (BreakElement (Some options))) h
  /\ ParagraphElement_break (Some (inr s)) content
     = ParagraphElement_break (Some (inl options)) content
  /\ ParagraphElement_break (Some (inr s)) content
     = content ++ [inr (BreakElement (Some options))]
  /\ ParagraphElement_render (ParagraphElement_break (Some (inr s)) content)
     = ParagraphElement_render (ParagraphElement_break (Some (inl options)) content)
  /\ ParagraphBuilder_break (Some (inr s)) content
     = ParagraphBuilder_break (Some (inl options)) content
  /\ SentenceBuilder_break (Some (inr s)) content
     = SentenceBuilder_break (Some (inl options)) content.
Proof. repeat split. Qed.

(** ** Rendering of containers and builders *)

Lemma render_content_concat (content : ContentList) :
  render_content render content
  = DocumentSpec.concat (DocumentSpec.entry <$> content).
Proof.
  unfold render_content. rewrite join_empty_concat. f_equal.
Qed.

Lemma VoiceBuilder_render_fields_section (vb : VoiceBuilder) :
  VoiceBuilder_render_fields vb = DocumentSpec.voice_section vb.
Proof.
  unfold VoiceBuilder_render_fields, DocumentSpec.voice_section,
    DocumentSpec.voice_open.
  rewrite render_content_concat.
  destruct (effect (vb_options vb)) as [[|a e]|]; same_string.
Qed.

(** Running a computation that returns, then its continuation. *)
Lemma bind_returns {A B} (m : M A) (k : A -> M B) (h h' : Heap) (a : A) :
  m h = (Returns a, h') -> bind m k h = k a h'.
Proof. intros Hm. unfold bind. by rewrite Hm. Qed.

Lemma get_voice_some (h : Heap) (v : loc) (vb : VoiceBuilder) :
  voices h !! v = Some vb -> get_voice v h = (Returns vb, h).
Proof. intros Hv. unfold get_voice. by rewrite Hv. Qed.

Lemma get_builder_some (h : Heap) (b : loc) (obj : SSMLBuilder) :
  builders h !! b = Some obj -> get_builder b h = (Returns obj, h).
Proof. intros Hb. unfold get_builder. by rewrite Hb. Qed.

Lemma VoiceBuilder_render_some (h : Heap) (v : loc) (vb : VoiceBuilder) :
  voices h !! v = Some vb ->
  VoiceBuilder_render v h = (Returns (VoiceBuilder_render_fields vb), h).
Proof.
  intros Hv. unfold VoiceBuilder_render.
  by rewrite (bind_returns _ _ _ _ _ (get_voice_some _ _ _ Hv)).
Qed.

(** The elements of a builder that are in the heap, rendered in order. *)
Lemma mapM_render (h : Heap) (ls : list loc) (secs : list VoiceBuilder) :
  Forall2 (fun l vb => voices h !! l = Some vb) ls secs ->
  mapM (fun el => r <- VoiceBuilder_render el ;; ret (indent +:+ r)) ls h
  = (Returns ((fun vb => indent +:+ VoiceBuilder_render_fields vb) <$> secs), h).
Proof.
  induction 1 as [|l vb ls secs Hl _ IH]; [done |].
  cbn [mapM].
  erewrite bind_returns; cycle 1.
  { erewrite bind_returns; [| by apply VoiceBuilder_render_some]. done. }
  erewrite bind_returns; [| exact IH]. done.
Qed.

Lemma SSMLBuilder_build_document (h : Heap) (b : loc) (obj : SSMLBuilder)
  (secs : list VoiceBuilder) :
  builders h !! b = Some obj ->
  Forall2 (fun l vb => voices h !! l = Some vb) (elements obj) secs ->
  SSMLBuilder_build b h = (Returns (DocumentSpec.document_of obj secs), h).
Proof.
  intros Hb Hsecs. unfold SSMLBuilder_build.
  erewrite bind_returns; [| by apply get_builder_some].
  erewrite bind_returns; [| by apply mapM_render].
  unfold ret. f_equal. f_equal.
  unfold DocumentSpec.document_of, DocumentSpec.document, DocumentSpec.children,
    DocumentSpec.speak_open.
  rewrite join_empty_concat, !fmap_app, !concat_app.
  assert ((fun vb => indent +:+ VoiceBuilder_render_fields vb) <$> secs
          = DocumentSpec.child <$> (DocumentSpec.voice_section <$> secs)) as ->.
  { rewrite <- list_fmap_compose. apply list_fmap_ext. intros i vb _. simpl.
    by rewrite VoiceBuilder_render_fields_section. }
  destruct (_backgroundAudio obj), (_voiceConversion obj); simpl;
    unfold indent, DocumentSpec.child, attr; rewrite ?append_assoc; reflexivity.
Qed.

Lemma sections_lookup (h : Heap) (ls : list loc) :
  (forall v, v ∈ ls -> v < length (voices h)) ->
  Forall2 (fun l vb => voices h !! l = Some vb) ls
    (omap (fun v => voices h !! v) ls).
Proof.
  induction ls as [|l ls IH]; intros Hls; [constructor |].
  destruct (lookup_lt_is_Some_2 (voices h) l) as [vb Hl].
  { apply Hls. left. }
  csimpl. setoid_rewrite Hl. constructor; [done |].
  apply IH. intros v Hv. apply Hls. by right.
Qed.

Lemma sections_registered (h : Heap) (b : loc) (obj : SSMLBuilder) :
  elements_valid h ->
  builders h !! b = Some obj ->
  Forall2 (fun l vb => voices h !! l = Some vb) (elements obj)
    (DocumentSpec.sections h obj).
Proof.
  intros Hel Hb. apply sections_lookup. intros v Hv. by apply (Hel b obj).
Qed.

Lemma SSMLBuilder_build_sections (h : Heap) (b : loc) (obj : SSMLBuilder) :
  elements_valid h ->
  builders h !! b = Some obj ->
  SSMLBuilder_build b h
  = (Returns (DocumentSpec.document_of obj (DocumentSpec.sections h obj)), h).
Proof.
  intros Hel Hb. apply SSMLBuilder_build_document; [done |].
  by apply (sections_registered h b).
Qed.

(** C2. For every builder of a well-formed heap, build() returns, and the
    document it returns is the opening speak tag with the four attributes
    version, xmlns, xmlns:mstts, xml:lang in this order, then the
    background-audio directive if set, the voice-conversion directive if
    set and every registered voice section in registration order, each
    after a newline and four spaces, then a newline and the closing speak
    tag. *)
Theorem SSMLBuilder_build_shape (h : Heap) (b : loc) (obj : SSMLBuilder) :
  heap_wf h ->
  builders h !! b = Some obj ->
  Forall2 (fun l vb => voices h !! l = Some vb) (elements obj)
    (DocumentSpec.sections h obj)
  /\ SSMLBuilder_build b h
     = (Returns
          (DocumentSpec.speak_open
             (JS.template (read (version (options obj))))
             (JS.template (read (xmlns (options obj))))
             (JS.template (read (xmlnsMstts (options obj))))
             (lang (options obj))
           +:+ DocumentSpec.concat
                 (DocumentSpec.child <$>
                    option_list (render <$> (BackgroundAudioElement <$> _backgroundAudio obj))
                    ++ option_list (render <$> (VoiceConversionElement <$> _voiceConversion obj))
                    ++ (DocumentSpec.voice_section <$> DocumentSpec.sections h obj))
           +:+ JS.nl +:+ "</speak>"), h).
Proof.
  intros [Hel _] Hb.
  split; [by apply (sections_registered h b) |].
  rewrite (SSMLBuilder_build_sections h b obj Hel Hb).
  unfold DocumentSpec.document_of, DocumentSpec.document, DocumentSpec.children.
  by destruct (_backgroundAudio obj), (_voiceConversion obj).
Qed.

(** ** Computations that only read the heap *)

Lemma readonly_ret {A} (a : A) : readonly (ret a).
Proof. by intros h. Qed.

Lemma readonly_throw {A} (message : string) : readonly (@throw A message).
Proof. by intros h. Qed.

Lemma readonly_bind {A B} (m : M A) (k : A -> M B) :
  readonly m -> (forall a, readonly (k a)) -> readonly (bind m k).
Proof.
  intros Hm Hk h. unfold bind. specialize (Hm h).
  destruct (m h) as [[a| |] h']; simpl in *; subst; [apply Hk | done | done].
Qed.

Lemma readonly_get_voice (v : loc) : readonly (get_voice v).
Proof. intros h. unfold get_voice. by destruct (voices h !! v). Qed.

Lemma readonly_get_builder (b : loc) : readonly (get_builder b).
Proof. intros h. unfold get_builder. by destruct (builders h !! b). Qed.

Lemma readonly_mapM {A B} (f : A -> M B) (xs : list A) :
  (forall x, readonly (f x)) -> readonly (mapM f xs).
Proof.
  intros Hf. induction xs as [|x xs IH]; simpl; [apply readonly_ret |].
  apply readonly_bind; [apply Hf |]. intros y.
  apply readonly_bind; [apply IH |]. intros ys. apply readonly_ret.
Qed.

Lemma readonly_VoiceBuilder_render (v : loc) : readonly (VoiceBuilder_render v).
Proof.
  apply readonly_bind; [apply readonly_get_voice |]. intros vb. apply readonly_ret.
Qed.

Lemma readonly_SSMLBuilder_build (b : loc) : readonly (SSMLBuilder_build b).
Proof.
  apply readonly_bind; [apply readonly_get_builder |]. intros obj.
  apply readonly_bind; [| intros rendered; apply readonly_ret].
  apply readonly_mapM. intros el.
  apply readonly_bind; [apply readonly_VoiceBuilder_render |].
  intros r. apply readonly_ret.
Qed.

Lemma readonly_VoiceBuilder_build (v : loc) : readonly (VoiceBuilder_build v).
Proof.
  apply readonly_bind; [apply readonly_get_voice |]. intros vb.
  destruct (vb_parent vb); [apply readonly_SSMLBuilder_build | apply readonly_throw].
Qed.

Lemma readonly_returning {A} (f : A -> value) (m : M A) :
  readonly m -> readonly (returning f m).
Proof. intros Hm. apply readonly_bind; [done |]. intros a. apply readonly_ret. Qed.

Lemma readonly_twice {A} (m : M A) (h : Heap) :
  readonly m -> m (m h).2 = m h.
Proof. intros Hm. by rewrite Hm. Qed.

(** C4. build() on an SSMLBuilder, and render() and build() on a
    VoiceBuilder, leave every object of the heap as it was (the element
    list, the directives, the options, the content lists), whatever they
    return; so a second call right after the first returns the same string
    (or fails the same way) and again leaves the heap as it was. The
    nodes held in content lists are values, and their render is a
    function of the node alone. *)
Theorem render_build_pure (h : Heap) (b v : loc) :
  (SSMLBuilder_build b h).2 = h
  /\ SSMLBuilder_build b (SSMLBuilder_build b h).2 = SSMLBuilder_build b h
  /\ (VoiceBuilder_render v h).2 = h
  /\ VoiceBuilder_render v (VoiceBuilder_render v h).2 = VoiceBuilder_render v h
  /\ (VoiceBuilder_build v h).2 = h
  /\ VoiceBuilder_build v (VoiceBuilder_build v h).2 = VoiceBuilder_build v h
  /\ run [call_SSMLBuilder b sm_build; call_SSMLBuilder b sm_build] h = h
  /\ (exec (call_SSMLBuilder b sm_build) (run [call_SSMLBuilder b sm_build] h)).1
     = (exec (call_SSMLBuilder b sm_build) h).1.
Proof.
  pose proof (readonly_SSMLBuilder_build b) as Hb.
  pose proof (readonly_VoiceBuilder_render v) as Hr.
  pose proof (readonly_VoiceBuilder_build v) as Hv.
  pose proof (readonly_returning v_string _ Hb) as Hb'.
  repeat split; try done; try by apply readonly_twice.
  - unfold run. simpl. by rewrite !Hb'.
  - unfold run. simpl. by rewrite Hb'.
Qed.

(** ** What the mutating methods do to the heap *)

Lemma VoiceBuilder_push_eq (h : Heap) (v : loc) (c : string + SSMLElement) :
  VoiceBuilder_push v c h
  = match voices h !! v with
    | Some vb =>
        (Returns v,
         {| builders := builders h; voices := <[v := with_content vb c]> (voices h) |})
    | None => (Dangling, h)
    end.
Proof.
  unfold VoiceBuilder_push, bind, get_voice. by destruct (voices h !! v).
Qed.

Lemma SSMLBuilder_voice_eq (h : Heap) (b : loc) (name : string)
  (effect : option string) :
  let vb := {| vb_content := [];
               vb_options := {| name := name; effect := effect |};
               vb_parent := Some b |} in
  SSMLBuilder_voice b name effect h
  = match builders h !! b with
    | Some obj =>
        (Returns (length (voices h)),
         {| builders := <[b := with_element obj (length (voices h))]> (builders h);
            voices := voices h ++ [vb] |})
    | None => (Dangling, {| builders := builders h; voices := voices h ++ [vb] |})
    end.
Proof.
  unfold SSMLBuilder_voice, new_VoiceBuilder, alloc_voice, bind, get_builder.
  simpl. by destruct (builders h !! b).
Qed.

Lemma SSMLBuilder_backgroundAudio_eq (h : Heap) (b : loc)
  (o : BackgroundAudioOptions) :
  SSMLBuilder_backgroundAudio b o h
  = match builders h !! b with
    | Some obj =>
        (Returns b,
         {| builders := <[b := with_backgroundAudio obj o]> (builders h);
            voices := voices h |})
    | None => (Dangling, h)
    end.
Proof.
  unfold SSMLBuilder_backgroundAudio, bind, get_builder.
  by destruct (builders h !! b).
Qed.

Lemma SSMLBuilder_voiceConversion_eq (h : Heap) (b : loc) (url : string) :
  SSMLBuilder_voiceConversion b url h
  = match builders h !! b with
    | Some obj =>
        (Returns b,
         {| builders := <[b := with_voiceConversion obj url]> (builders h);
            voices := voices h |})
    | None => (Dangling, h)
    end.
Proof.
  unfold SSMLBuilder_voiceConversion, bind, get_builder.
  by destruct (builders h !! b).
Qed.

Lemma heap_wf_directive (h : Heap) (b : loc) (obj obj' : SSMLBuilder) :
  heap_wf h -> builders h !! b = Some obj -> elements obj' = elements obj ->
  heap_wf {| builders := <[b := obj']> (builders h); voices := voices h |}.
Proof.
  intros [Hel Hpa] Hb Hobj'. split.
  - intros b' o v Hb' Hv. simpl in *.
    destruct (decide (b = b')) as [<- | Hne].
    + rewrite list_lookup_insert_eq in Hb' by by eapply lookup_lt_Some.
      injection Hb' as <-. rewrite Hobj' in Hv. by apply (Hel b obj).
    + rewrite list_lookup_insert_ne in Hb' by done. by apply (Hel b' o).
  - intros v vb p Hv Hp. simpl in *. rewrite length_insert. by apply (Hpa v vb).
Qed.

(** C5. A builder holds at most one background-audio directive and at most
    one voice-conversion directive (each is one optional field). Calling
    backgroundAudio, respectively voiceConversion, a second time returns
    the builder without an error and leaves the heap that the second call
    alone would have left; the document built afterwards has the directive
    of the second call as its one child of that kind, in the place of the
    directive, and nothing of the first call. *)
Theorem directive_last_write_wins (h : Heap) (b : loc) (obj : SSMLBuilder)
  (o1 o2 : BackgroundAudioOptions) (u1 u2 : string) :
  heap_wf h ->
  builders h !! b = Some obj ->
  let first := SSMLBuilder_backgroundAudio b o1 h in
  let second := SSMLBuilder_backgroundAudio b o2 first.2 in
  let first' := SSMLBuilder_voiceConversion b u1 h in
  let second' := SSMLBuilder_voiceConversion b u2 first'.2 in
  (first.1 = Returns b /\ second.1 = Returns b
   /\ second.2 = (SSMLBuilder_backgroundAudio b o2 h).2
   /\ builders second.2 !! b = Some (with_backgroundAudio obj o2)
   /\ SSMLBuilder_build b second.2
      = (Returns
           (DocumentSpec.document
              (JS.template (read (version (options obj))))
              (JS.template (read (xmlns (options obj))))
              (JS.template (read (xmlnsMstts (options obj))))
              (lang (options obj))
              (Some (render (BackgroundAudioElement o2)))
              (VoiceConversionElement_render <$> _voiceConversion obj)
              (DocumentSpec.voice_section <$> DocumentSpec.sections h obj)),
         second.2))
  /\ (first'.1 = Returns b /\ second'.1 = Returns b
      /\ second'.2 = (SSMLBuilder_voiceConversion b u2 h).2
      /\ builders second'.2 !! b = Some (with_voiceConversion obj u2)
      /\ SSMLBuilder_build b second'.2
         = (Returns
              (DocumentSpec.document
                 (JS.template (read (version (options obj))))
                 (JS.template (read (xmlns (options obj))))
                 (JS.template (read (xmlnsMstts (options obj))))
                 (lang (options obj))
                 (BackgroundAudioElement_render <$> _backgroundAudio obj)
                 (Some (render (VoiceConversionElement u2)))
                 (DocumentSpec.voice_section <$> DocumentSpec.sections h obj)),
            second'.2)).
Proof.
  intros Hwf Hb first second first' second'.
  assert (b < length (builders h)) as Hlt by by eapply lookup_lt_Some.
  split.
  - subst first second.
    rewrite (SSMLBuilder_backgroundAudio_eq h), Hb. simpl.
    rewrite !SSMLBuilder_backgroundAudio_eq. simpl.
    rewrite list_lookup_insert_eq by done. simpl. rewrite Hb. simpl.
    rewrite list_insert_insert_eq.
    repeat split.
    + by apply list_lookup_insert_eq.
    + pose proof (heap_wf_directive h b obj (with_backgroundAudio obj o2) Hwf Hb eq_refl)
        as [Hel2 _].
      erewrite SSMLBuilder_build_sections;
        [| exact Hel2 | by apply list_lookup_insert_eq].
      reflexivity.
  - subst first' second'.
    rewrite (SSMLBuilder_voiceConversion_eq h), Hb. simpl.
    rewrite !SSMLBuilder_voiceConversion_eq. simpl.
    rewrite list_lookup_insert_eq by done. simpl. rewrite Hb. simpl.
    rewrite list_insert_insert_eq.
    repeat split.
    + by apply list_lookup_insert_eq.
    + pose proof (heap_wf_directive h b obj (with_voiceConversion obj u2) Hwf Hb eq_refl)
        as [Hel2 _].
      erewrite SSMLBuilder_build_sections;
        [| exact Hel2 | by apply list_lookup_insert_eq].
      reflexivity.
Qed.

(** ** Content lists: append order is render order *)

Lemma ParagraphElement_exec_appended (content : ContentList)
  (m : ParagraphElement_method) :
  ParagraphElement_exec content m = content ++ [DocumentSpec.paragraph_appended m].
Proof. destruct m as [| | | | |[[|]|]| | |]; reflexivity. Qed.

Lemma SentenceElement_exec_appended (content : ContentList)
  (m : SentenceElement_method) :
  SentenceElement_exec content m = content ++ [DocumentSpec.sentence_appended m].
Proof. destruct m; reflexivity. Qed.

Lemma LangElement_exec_appended (this : LangElement_state)
  (m : LangElement_method) :
  LangElement_exec this m
  = {| lang_lang := lang_lang this;
       lang_content := lang_content this ++ [DocumentSpec.lang_appended m] |}.
Proof. destruct m; reflexivity. Qed.

Lemma foldl_appended {S Mth} (exec : S -> Mth -> S) (get : S -> ContentList)
  (appended : Mth -> string + SSMLElement) (ms : list Mth) (s : S) :
  (forall s m, get (exec s m) = get s ++ [appended m]) ->
  get (foldl exec s ms) = get s ++ (appended <$> ms).
Proof.
  intros Hstep. revert s. induction ms as [|m ms IH]; intros s; simpl.
  - by rewrite app_nil_r.
  - rewrite IH, Hstep, <- app_assoc. done.
Qed.

Lemma foldl_LangElement_lang (ms : list LangElement_method)
  (this : LangElement_state) :
  lang_lang (foldl LangElement_exec this ms) = lang_lang this.
Proof.
  revert this. induction ms as [|m ms IH]; intros this; simpl; [done |].
  rewrite IH. by destruct m.
Qed.

Lemma omap_cons_app {A B} (f : A -> option B) (x : A) (xs : list A) :
  omap f (x :: xs) = option_list (f x) ++ omap f xs.
Proof. csimpl. by destruct (f x). Qed.

Lemma VoiceBuilder_exec_content (v : loc) (m : VoiceBuilder_method)
  (c : string + SSMLElement) :
  DocumentSpec.appended m = Some c ->
  VoiceBuilder_exec v m = returning v_ref (VoiceBuilder_push v c).
Proof.
  destruct m as [|[[|]|]| | | | | | | | | | | | | | | | | | | |]; simpl;
    intros [= <-]; reflexivity.
Qed.

Lemma returning_snd {A} (f : A -> value) (m : M A) (h : Heap) :
  (returning f m h).2 = (m h).2.
Proof. unfold returning, bind. by destruct (m h) as [[| |] ?]. Qed.


(** A call on a VoiceBuilder leaves the object with the entry of the call
    at the end of its content, and with nothing else changed. *)
Lemma VoiceBuilder_exec_step (h : Heap) (v : loc) (vb : VoiceBuilder)
  (m : VoiceBuilder_method) :
  voices h !! v = Some vb ->
  exists vb', voices (VoiceBuilder_exec v m h).2 !! v = Some vb'
    /\ vb_content vb' = vb_content vb ++ option_list (DocumentSpec.appended m)
    /\ vb_options vb' = vb_options vb
    /\ vb_parent vb' = vb_parent vb.
Proof.
  intros Hv. assert (v < length (voices h)) as Hlt by by eapply lookup_lt_Some.
  destruct (DocumentSpec.appended m) as [c|] eqn:Hm.
  - rewrite (VoiceBuilder_exec_content v m c Hm), returning_snd.
    rewrite VoiceBuilder_push_eq, Hv. simpl.
    exists (with_content vb c). by rewrite list_lookup_insert_eq.
  - exists vb. simpl. rewrite app_nil_r. split; [| done].
    destruct m as [|[[|]|]| | | | | | | | | | | | | | | | | | | |];
      try discriminate; cbn [VoiceBuilder_exec]; rewrite returning_snd.
    + by rewrite readonly_VoiceBuilder_build.
    + unfold VoiceBuilder_voice.
      rewrite (bind_returns _ _ _ _ _ (get_voice_some _ _ _ Hv)).
      destruct (vb_parent vb) as [p|]; [| done].
      rewrite SSMLBuilder_voice_eq.
      destruct (builders h !! p); simpl; by rewrite lookup_app_l.
    + by rewrite readonly_VoiceBuilder_render.
Qed.

Lemma VoiceBuilder_run_content (ms : list VoiceBuilder_method) (h : Heap)
  (v : loc) (vb : VoiceBuilder) :
  voices h !! v = Some vb ->
  exists vb', voices (run (on_voice v ms) h) !! v = Some vb'
    /\ vb_content vb' = vb_content vb ++ omap DocumentSpec.appended ms
    /\ vb_options vb' = vb_options vb
    /\ vb_parent vb' = vb_parent vb.
Proof.
  revert h vb. induction ms as [|m ms IH]; intros h vb Hv.
  - exists vb. simpl. by rewrite app_nil_r.
  - destruct (VoiceBuilder_exec_step h v vb m Hv) as (vb1 & Hv1 & Hc1 & Ho1 & Hp1).
    destruct (IH _ vb1 Hv1) as (vb' & Hv' & Hc' & Ho' & Hp').
    exists vb'. split; [exact Hv' |].
    rewrite Hc', Hc1, Ho', Ho1, Hp', Hp1, omap_cons_app, <- app_assoc. done.
Qed.

(** C3. Whatever methods a program calls, in whatever order, on a
    VoiceBuilder, a ParagraphElement, a SentenceElement or a LangElement,
    the container renders as its opening tag, then the entries its content
    held before followed by the entry of each call in the order of the
    calls, each text entry escaped and each node entry rendered, with
    nothing between two entries, then its closing tag. *)
Theorem content_order (h : Heap) (v : loc) (vb : VoiceBuilder)
  (ms : list VoiceBuilder_method) (pms : list ParagraphElement_method)
  (sms : list SentenceElement_method) (lms : list LangElement_method)
  (content : ContentList) (tag : string) :
  voices h !! v = Some vb ->
  VoiceBuilder_render v (run (on_voice v ms) h)
  = (Returns
       (DocumentSpec.voice_open (vb_options vb)
        +:+ DocumentSpec.concat
              (DocumentSpec.entry <$>
                 vb_content vb ++ omap DocumentSpec.appended ms)
        +:+ "</voice>"),
     run (on_voice v ms) h)
  /\ ParagraphElement_render (foldl ParagraphElement_exec content pms)
     = "<p>"
       +:+ DocumentSpec.concat
             (DocumentSpec.entry <$>
                content ++ (DocumentSpec.paragraph_appended <$> pms))
       +:+ "</p>"
  /\ SentenceElement_render (foldl SentenceElement_exec content sms)
     = "<s>"
       +:+ DocumentSpec.concat
             (DocumentSpec.entry <$>
                content ++ (DocumentSpec.sentence_appended <$> sms))
       +:+ "</s>"
  /\ LangElement_render
       (foldl LangElement_exec {| lang_lang := tag; lang_content := content |} lms)
     = "<lang xml:lang=" +:+ JS.dq +:+ tag +:+ JS.dq +:+ ">"
       +:+ DocumentSpec.concat
             (DocumentSpec.entry <$>
                content ++ (DocumentSpec.lang_appended <$> lms))
       +:+ "</lang>".
Proof.
  intros Hv. repeat split.
  - destruct (VoiceBuilder_run_content ms h v vb Hv) as (vb' & Hv' & Hc & Ho & _).
    rewrite (VoiceBuilder_render_some _ _ _ Hv'), VoiceBuilder_render_fields_section.
    unfold DocumentSpec.voice_section. by rewrite Hc, Ho.
  - unfold ParagraphElement_render. simpl. rewrite render_content_concat.
    pose proof (foldl_appended ParagraphElement_exec id
                  DocumentSpec.paragraph_appended pms content
                  ParagraphElement_exec_appended) as Hp.
    unfold id in Hp. by rewrite Hp.
  - unfold SentenceElement_render. simpl. rewrite render_content_concat.
    pose proof (foldl_appended SentenceElement_exec id
                  DocumentSpec.sentence_appended sms content
                  SentenceElement_exec_appended) as Hs.
    unfold id in Hs. by rewrite Hs.
  - unfold LangElement_render. simpl. rewrite render_content_concat.
    rewrite foldl_LangElement_lang. simpl.
    rewrite (foldl_appended LangElement_exec lang_content
               DocumentSpec.lang_appended lms).
    + simpl. unfold attr. rewrite ?append_assoc. reflexivity.
    + intros s m. by rewrite LangElement_exec_appended.
Qed.

(** ** How the heap evolves under calls *)

Lemma exec_heap_step (c : Call) (h : Heap) : heap_step h (exec c h).2.
Proof.
  destruct c as [o | o parent | b m | v m]; cbn [exec].
  - rewrite returning_snd. by apply step_new_builder.
  - rewrite returning_snd. apply step_new_voice.
  - destruct m; cbn [SSMLBuilder_exec]; rewrite returning_snd.
    + rewrite SSMLBuilder_voice_eq.
      destruct (builders h !! b) eqn:Hb; simpl;
        [by apply step_register | apply step_new_voice].
    + rewrite SSMLBuilder_backgroundAudio_eq.
      destruct (builders h !! b) eqn:Hb; simpl;
        [by eapply step_directive | apply step_none].
    + rewrite SSMLBuilder_voiceConversion_eq.
      destruct (builders h !! b) eqn:Hb; simpl;
        [by eapply step_directive | apply step_none].
    + rewrite readonly_SSMLBuilder_build. apply step_none.
  - destruct (DocumentSpec.appended m) as [c|] eqn:Hm.
    + rewrite (VoiceBuilder_exec_content v m c Hm), returning_snd.
      rewrite VoiceBuilder_push_eq.
      destruct (voices h !! v) eqn:Hv; simpl; [by apply step_push | apply step_none].
    + destruct m as [|[[|]|]| | | | | | | | | | | | | | | | | | | |];
        try discriminate; cbn [VoiceBuilder_exec]; rewrite returning_snd.
      * rewrite readonly_VoiceBuilder_build. apply step_none.
      * unfold VoiceBuilder_voice, bind at 1, get_voice.
        destruct (voices h !! v) as [vb|]; simpl; [| apply step_none].
        destruct (vb_parent vb) as [p|]; [| apply step_none].
        rewrite SSMLBuilder_voice_eq.
        destruct (builders h !! p) eqn:Hp; simpl;
          [by apply step_register | apply step_new_voice].
      * rewrite readonly_VoiceBuilder_render. apply step_none.
Qed.

Lemma heap_grows_refl (h : Heap) : heap_grows h h.
Proof. split; intros ? x Hx; exists x; by repeat split. Qed.

Lemma heap_grows_trans (h1 h2 h3 : Heap) :
  heap_grows h1 h2 -> heap_grows h2 h3 -> heap_grows h1 h3.
Proof.
  intros [Hv12 Hb12] [Hv23 Hb23]. split.
  - intros v vb Hv.
    destruct (Hv12 v vb Hv) as (vb2 & Hv2 & Hp2 & Ho2 & Hc2).
    destruct (Hv23 v vb2 Hv2) as (vb3 & Hv3 & Hp3 & Ho3 & Hc3).
    exists vb3. repeat split; [done | congruence | congruence |].
    by transitivity (vb_content vb2).
  - intros b obj Hb.
    destruct (Hb12 b obj Hb) as (obj2 & Hb2 & Ho2 & He2).
    destruct (Hb23 b obj2 Hb2) as (obj3 & Hb3 & Ho3 & He3).
    exists obj3. repeat split; [done | congruence |].
    by transitivity (elements obj2).
Qed.

Lemma lookup_insert_grows {A} (l : list A) (i j : nat) (x y z : A) :
  l !! i = Some x -> l !! j = Some z ->
  exists z', <[i := y]> l !! j = Some z' /\ (if decide (i = j) then z' = y /\ z = x else z' = z).
Proof.
  intros Hi Hj. destruct (decide (i = j)) as [<- | Hne].
  - exists y. rewrite list_lookup_insert_eq by by eapply lookup_lt_Some.
    split; [done |]. split; [done | congruence].
  - exists z. by rewrite list_lookup_insert_ne.
Qed.

Lemma heap_step_grows (h h' : Heap) : heap_step h h' -> heap_grows h h'.
Proof.
  destruct 1 as [| v vb c Hv | vb | b obj vb Hb | b obj obj' Hb He Ho | obj He].
  - apply heap_grows_refl.
  - split; [| intros b obj Hb; exists obj; by repeat split].
    intros w vbw Hw. simpl.
    destruct (lookup_insert_grows (voices h) v w vb (with_content vb c) vbw Hv Hw)
      as (z & Hz & Hcase).
    exists z. split; [done |].
    destruct (decide (v = w)) as [<- | Hne].
    + destruct Hcase as [-> ->]. repeat split. by apply prefix_app_r.
    + by subst z.
  - split; [| intros b obj Hb; exists obj; by repeat split].
    intros w vbw Hw. exists vbw. simpl.
    rewrite lookup_app_l by by eapply lookup_lt_Some. by repeat split.
  - split.
    + intros w vbw Hw. exists vbw. simpl.
      rewrite lookup_app_l by by eapply lookup_lt_Some. by repeat split.
    + intros b' obj' Hb'. simpl.
      destruct (lookup_insert_grows (builders h) b b' obj
                  (with_element obj (length (voices h))) obj' Hb Hb')
        as (z & Hz & Hcase).
      exists z. split; [done |].
      destruct (decide (b = b')) as [<- | Hne].
      * destruct Hcase as [-> ->]. split; [done |]. by apply prefix_app_r.
      * by subst z.
  - split; [intros w vbw Hw; exists vbw; by repeat split |].
    intros b' obj0 Hb'. simpl.
    destruct (lookup_insert_grows (builders h) b b' obj obj' obj0 Hb Hb')
      as (z & Hz & Hcase).
    exists z. split; [done |].
    destruct (decide (b = b')) as [<- | Hne].
    + destruct Hcase as [-> ->]. split; [done |]. by rewrite He.
    + by subst z.
  - split; [intros w vbw Hw; exists vbw; by repeat split |].
    intros b' obj0 Hb'. exists obj0. simpl.
    rewrite lookup_app_l by by eapply lookup_lt_Some. by repeat split.
Qed.


Lemma run_grows (cs : list Call) (h : Heap) : heap_grows h (run cs h).
Proof.
  revert h. induction cs as [|c cs IH]; intros h; [apply heap_grows_refl |].
  apply (heap_grows_trans _ (exec c h).2); [| apply IH].
  apply heap_step_grows, exec_heap_step.
Qed.


(** ** The two methods that need the parent *)







(** ** The example program *)

Example example_heap_run : run example_calls empty_heap = example_heap.
Proof. reflexivity. Qed.

Example example_build :
  SSMLBuilder_build 0 example_heap = (Returns example_document, example_heap).
Proof. reflexivity. Qed.

Example example_escape :
  Xml.escapeXml ("Hello & goodbye < > " +:+ JS.dq +:+ " '")
  = "Hello &amp; goodbye &lt; &gt; &quot; &apos;".
Proof. reflexivity. Qed.

Example example_bookmark :
  render (BookmarkElement "m1") = "<bookmark mark=" +:+ JS.dq +:+ "m1" +:+ JS.dq +:+ "/>".
Proof. reflexivity. Qed.

Lemma example_heap_wf : heap_wf example_heap.
Proof.
  split.
  - intros [|b] obj v Hb Hv; [| destruct b; discriminate Hb].
    injection Hb as <-. simpl in *.
    apply list_elem_of_singleton in Hv as ->. lia.
  - intros [|[|v]] vb p Hv Hp; [| | destruct v; discriminate Hv];
      injection Hv as <-; simpl in *; [injection Hp as <-; lia | discriminate Hp].
Qed.

Lemma SSMLBuilder_build_shape_witness :
  heap_wf example_heap
  /\ builders example_heap !! 0 = Some example_builder
  /\ SSMLBuilder_build 0 example_heap = (Returns example_document, example_heap).
Proof.
  split; [exact example_heap_wf |]. split; [reflexivity |].
  rewrite (proj2 (SSMLBuilder_build_shape example_heap 0 example_builder
                    example_heap_wf eq_refl)).
  reflexivity.
Defined.

Lemma content_order_witness :
  voices example_heap !! 0 = Some example_voice
  /\ (VoiceBuilder_render 0
        (run (on_voice 0 [vm_break (Some (inr "500ms")); vm_text "World"])
           example_heap)).1
     = Returns
         ("<voice name=" +:+ JS.dq +:+ "en-US-AvaNeural" +:+ JS.dq +:+ ">"
          +:+ "Hello, world!"
          +:+ "<break time=" +:+ JS.dq +:+ "500ms" +:+ JS.dq +:+ "/>"
          +:+ "World" +:+ "</voice>").
Proof.
  split; [reflexivity |].
  rewrite (proj1 (content_order example_heap 0 example_voice
                    [vm_break (Some (inr "500ms")); vm_text "World"]
                    [] [] [] [] EmptyString eq_refl)).
  reflexivity.
Defined.

Lemma directive_last_write_wins_witness :
  heap_wf example_heap
  /\ builders example_heap !! 0 = Some example_builder
  /\ let o1 := {| src := "first.mp3"; volume := None; fadein := None; fadeout := None |} in
     let o2 := {| src := "second.mp3"; volume := Some "0.5"; fadein := None; fadeout := None |} in
     (SSMLBuilder_build 0
        (SSMLBuilder_backgroundAudio 0 o2
           (SSMLBuilder_backgroundAudio 0 o1 example_heap).2).2).1
     = Returns
         (example_speak_open
          +:+ JS.nl +:+ "    <mstts:backgroundaudio src=" +:+ JS.dq +:+ "second.mp3"
          +:+ JS.dq +:+ " volume=" +:+ JS.dq +:+ "0.5" +:+ JS.dq +:+ "/>"
          +:+ JS.nl +:+ "    <voice name=" +:+ JS.dq +:+ "en-US-AvaNeural" +:+ JS.dq
          +:+ ">" +:+ "Hello, world!</voice>"
          +:+ JS.nl +:+ "</speak>").
Proof.
  split; [exact example_heap_wf |]. split; [reflexivity |].
  intros o1 o2.
  pose proof (directive_last_write_wins example_heap 0 example_builder o1 o2
                EmptyString EmptyString example_heap_wf eq_refl) as [(_ & _ & _ & _ & H) _].
  rewrite H. reflexivity.
Defined.


(** * Further properties of the sources *)

(** ** Regular expressions: the test decides the language *)

Section RegexTheory.
Import Regex.

Lemma append_eq_empty (s1 s2 : string) :
  s1 +:+ s2 = EmptyString -> s1 = EmptyString /\ s2 = EmptyString.
Proof. destruct s1; [done | discriminate]. Qed.

Lemma nullable_matches (r : regex) :
  nullable r = true <-> matches r EmptyString.
Proof.
  induction r as [| | p | r1 IH1 r2 IH2 | r1 IH1 r2 IH2 | r IH]; simpl.
  - split; [discriminate | inversion 1].
  - split; [constructor | done].
  - split; [discriminate | inversion 1].
  - rewrite andb_true_iff, IH1, IH2. split.
    + intros [H1 H2]. exact (m_cat _ _ _ _ H1 H2).
    + inversion 1 as [| | ? ? s1 s2 H1 H2 Hr Hs | | | |]; subst.
      apply append_eq_empty in Hs as [-> ->]. done.
  - rewrite orb_true_iff, IH1, IH2. split.
    + intros [H | H]; [by apply m_alt_l | by apply m_alt_r].
    + inversion 1; subst; auto.
  - split; [constructor | done].
Qed.

(** A text of the language that starts with [c], read after [c]. *)
Lemma matches_deriv (r : regex) (s' : string) :
  matches r s' -> forall c s, s' = String c s -> matches (deriv c r) s.
Proof.
  induction 1 as [| p a Hp | r1 r2 s1 s2 H1 IH1 H2 IH2 | r1 r2 s0 H IH
                 | r1 r2 s0 H IH | r | r s1 s2 H1 IH1 H2 IH2];
    intros c s Hs; simpl.
  - discriminate.
  - injection Hs as -> <-. rewrite Hp. constructor.
  - destruct s1 as [|a s1].
    + change (EmptyString +:+ s2) with s2 in Hs.
      apply nullable_matches in H1. rewrite H1.
      apply m_alt_r. by apply IH2.
    + rewrite append_cons in Hs. injection Hs as -> <-.
      assert (matches (Cat (deriv c r1) r2) (s1 +:+ s2)) as Hcat
        by (constructor; [by apply IH1 | done]).
      destruct (nullable r1); [by apply m_alt_l | done].
  - apply m_alt_l. by apply IH.
  - apply m_alt_r. by apply IH.
  - discriminate.
  - destruct s1 as [|a s1].
    + change (EmptyString +:+ s2) with s2 in Hs. by apply IH2.
    + rewrite append_cons in Hs. injection Hs as -> <-.
      constructor; [by apply IH1 | done].
Qed.

Lemma deriv_matches (r : regex) (c : ascii) (s : string) :
  matches (deriv c r) s -> matches r (String c s).
Proof.
  revert s. induction r as [| | p | r1 IH1 r2 IH2 | r1 IH1 r2 IH2 | r IH];
    intros s; simpl.
  - inversion 1.
  - inversion 1.
  - destruct (p c) eqn:Hp; inversion 1; subst. by constructor.
  - assert (forall t, matches (Cat (deriv c r1) r2) t -> matches (Cat r1 r2) (String c t))
      as Hcat.
    { intros t. inversion 1 as [| | ? ? s1 s2 H1 H2 | | | |]; subst.
      rewrite <- append_cons. constructor; [by apply IH1 | done]. }
    destruct (nullable r1) eqn:Hn; [| apply Hcat].
    inversion 1 as [| | | ? ? ? H1 | ? ? ? H2 | |]; subst; [by apply Hcat |].
    change (String c s) with (EmptyString +:+ String c s).
    constructor; [by apply nullable_matches | by apply IH2].
  - inversion 1; subst; [apply m_alt_l | apply m_alt_r]; auto.
  - inversion 1 as [| | ? ? s1 s2 H1 H2 | | | |]; subst.
    rewrite <- append_cons. constructor; [by apply IH | done].
Qed.

Lemma test_matches (r : regex) (s : string) :
  test r s = true <-> matches r s.
Proof.
  revert r. induction s as [|c s IH]; intros r; simpl.
  - apply nullable_matches.
  - rewrite IH. split; [apply deriv_matches |].
    intros H. by apply (matches_deriv r (String c s)).
Qed.

(** *** The language of each construct *)

Lemma matches_Eps (s : string) : matches Eps s <-> s = EmptyString.
Proof. split; [by inversion 1 | intros ->; constructor]. Qed.

Lemma matches_Cat (r1 r2 : regex) (s : string) :
  matches (Cat r1 r2) s
  <-> exists s1 s2, s = s1 +:+ s2 /\ matches r1 s1 /\ matches r2 s2.
Proof.
  split.
  - inversion 1; subst. eauto.
  - intros (s1 & s2 & -> & H1 & H2). by constructor.
Qed.

Lemma matches_Alt (r1 r2 : regex) (s : string) :
  matches (Alt r1 r2) s <-> matches r1 s \/ matches r2 s.
Proof.
  split.
  - inversion 1; subst; auto.
  - intros [H | H]; [by apply m_alt_l | by apply m_alt_r].
Qed.

Lemma matches_Opt (r : regex) (s : string) :
  matches (Opt r) s <-> matches r s \/ s = EmptyString.
Proof. unfold Opt. by rewrite matches_Alt, matches_Eps. Qed.

Lemma matches_Class (p : ascii -> bool) (s : string) :
  matches (Class p) s <-> exists a, s = String a EmptyString /\ p a = true.
Proof.
  split.
  - inversion 1; subst. eauto.
  - intros (a & -> & Hp). by constructor.
Qed.

Lemma matches_Chr (c : ascii) (s : string) :
  matches (Chr c) s <-> s = String c EmptyString.
Proof.
  unfold Chr. rewrite matches_Class. split.
  - intros (a & -> & Ha). apply Ascii.eqb_eq in Ha. by subst.
  - intros ->. exists c. split; [done | apply Ascii.eqb_refl].
Qed.

Lemma matches_Lit (l s : string) : matches (Lit l) s <-> s = l.
Proof.
  revert s. induction l as [|c l IH]; intros s; simpl.
  - apply matches_Eps.
  - rewrite matches_Cat. split.
    + intros (s1 & s2 & -> & H1 & H2).
      apply matches_Chr in H1 as ->. apply IH in H2 as ->. done.
    + intros ->. exists (String c EmptyString), l.
      split; [done |]. split; [by apply matches_Chr | by apply IH].
Qed.

Lemma all_chars_append (p : ascii -> bool) (s1 s2 : string) :
  all_chars p (s1 +:+ s2) = all_chars p s1 && all_chars p s2.
Proof.
  induction s1 as [|a s1 IH]; [done |].
  rewrite append_cons. simpl. by rewrite IH, andb_assoc.
Qed.

Lemma matches_Star_Class (p : ascii -> bool) (s : string) :
  matches (Star (Class p)) s <-> all_chars p s = true.
Proof.
  split.
  - intros H. remember (Star (Class p)) as r eqn:Hr.
    induction H as [| | | | | r' | r' s1 s2 H1 _ H2 IH2]; try discriminate.
    + done.
    + injection Hr as ->. apply matches_Class in H1 as (a & -> & Ha).
      rewrite append_cons. simpl. rewrite Ha. by apply IH2.
  - induction s as [|a s IH]; simpl; [constructor |].
    intros [Ha Hs]%andb_true_iff.
    change (String a s) with (String a EmptyString +:+ s).
    constructor; [by constructor | by apply IH].
Qed.

Lemma matches_Plus_Class (p : ascii -> bool) (s : string) :
  matches (Plus (Class p)) s <-> s <> EmptyString /\ all_chars p s = true.
Proof.
  unfold Plus. rewrite matches_Cat. split.
  - intros (s1 & s2 & -> & H1 & H2).
    apply matches_Class in H1 as (a & -> & Ha).
    apply matches_Star_Class in H2. rewrite append_cons. simpl.
    split; [done |]. by rewrite Ha.
  - intros [Hne Hs]. destruct s as [|a s]; [done |]. simpl in Hs.
    apply andb_true_iff in Hs as [Ha Hs].
    exists (String a EmptyString), s. split; [done |].
    split; [by constructor | by apply matches_Star_Class].
Qed.

(** A text of the language holds only characters of the classes of the
    expression. *)
Lemma matches_within (P : ascii -> bool) (r : regex) (s : string) :
  matches r s -> within P r -> all_chars P s = true.
Proof.
  induction 1 as [| p a Hp | r1 r2 s1 s2 H1 IH1 H2 IH2 | r1 r2 s0 H IH
                 | r1 r2 s0 H IH | r | r s1 s2 H1 IH1 H2 IH2]; simpl; intros HP.
  - done.
  - by rewrite (HP a Hp).
  - destruct HP as [HP1 HP2]. by rewrite all_chars_append, IH1, IH2.
  - destruct HP as [HP1 HP2]. by apply IH.
  - destruct HP as [HP1 HP2]. by apply IH.
  - done.
  - by rewrite all_chars_append, IH1, IH2.
Qed.

End RegexTheory.

(** ** The validators of src/utils/xml.ts *)

Section Validators.
Import Regex ValidationSpec.

Lemma includes_In (xs : list string) (v : string) :
  JS.includes xs v = true <-> In v xs.
Proof.
  unfold JS.includes. rewrite existsb_exists. split.
  - intros (x & Hx & Heq). apply String.eqb_eq in Heq. by subst.
  - intros Hv. exists v. split; [done | apply String.eqb_refl].
Qed.

Lemma matches_re_number (s : string) : matches Xml.re_number s <-> decimal s.
Proof.
  unfold Xml.re_number, decimal, digits. rewrite matches_Cat. split.
  - intros (i & f & -> & Hi & Hf). exists i, f.
    apply matches_Plus_Class in Hi. split; [done |]. split; [done |].
    apply matches_Opt in Hf as [Hf | ->]; [right | by left].
    apply matches_Cat in Hf as (p & d & -> & Hp & Hd).
    apply matches_Chr in Hp as ->. apply matches_Plus_Class in Hd. eauto.
  - intros (i & f & -> & Hi & Hf). exists i, f. split; [done |].
    split; [by apply matches_Plus_Class |].
    apply matches_Opt. destruct Hf as [-> | (d & -> & Hd)]; [by right | left].
    apply matches_Cat. exists ".", d. split; [done |].
    split; [by apply matches_Chr | by apply matches_Plus_Class].
Qed.

Lemma matches_re_sign (s : string) : matches Xml.re_sign s <-> sign s.
Proof.
  unfold Xml.re_sign, sign. rewrite matches_Opt, matches_Class. split.
  - intros [(a & -> & Ha) | ->]; [right | by left].
    unfold plus_minus in Ha. apply orb_true_iff in Ha as [Ha | Ha];
      apply Ascii.eqb_eq in Ha; subst; auto.
  - intros [-> | [-> | ->]]; [by right | left | left].
    + by exists "+"%char.
    + by exists "-"%char.
Qed.

Lemma matches_percent_opt (s : string) :
  matches (Opt (Chr "%")) s <-> s = EmptyString \/ s = "%".
Proof. rewrite matches_Opt, matches_Chr. tauto. Qed.

Lemma isValidDuration_duration (v : string) :
  Xml.isValidDuration v = true <-> duration v.
Proof.
  unfold Xml.isValidDuration, Xml.re_duration, duration.
  rewrite test_matches, matches_Cat. split.
  - intros (n & u & -> & Hn & Hu). exists n, u. split; [done |].
    split; [by apply matches_re_number |].
    apply matches_Alt in Hu as [Hu | Hu]; apply matches_Lit in Hu; auto.
  - intros (n & u & -> & Hn & Hu). exists n, u. split; [done |].
    split; [by apply matches_re_number |].
    apply matches_Alt. destruct Hu as [-> | ->]; [left | right]; by apply matches_Lit.
Qed.

Lemma test_signed (tail : regex) (P : string -> Prop) (v : string) :
  (forall u, matches tail u <-> P u) ->
  test (Cat Xml.re_sign (Cat Xml.re_number tail)) v = true
  <-> exists g n u, v = g +:+ n +:+ u /\ sign g /\ decimal n /\ P u.
Proof.
  intros Htail. rewrite test_matches, matches_Cat. split.
  - intros (g & t & -> & Hg & Ht).
    apply matches_Cat in Ht as (n & u & -> & Hn & Hu). exists g, n, u.
    split; [done |]. split; [by apply matches_re_sign |].
    split; [by apply matches_re_number | by apply Htail].
  - intros (g & n & u & -> & Hg & Hn & Hu). exists g, (n +:+ u).
    split; [done |]. split; [by apply matches_re_sign |].
    apply matches_Cat. exists n, u. split; [done |].
    split; [by apply matches_re_number | by apply Htail].
Qed.

Lemma isValidVolume_volume (v : string) :
  Xml.isValidVolume v = true <-> volume v.
Proof.
  unfold Xml.isValidVolume, volume.
  rewrite !orb_true_iff, includes_In.
  unfold Xml.re_decibel, Xml.re_percentage.
  rewrite (test_signed _ (fun u => u = "dB") v) by apply matches_Lit.
  rewrite test_matches, matches_Cat.
  split.
  - intros [[H | H] | H]; [left | right; left | right; right; exact H].
    + destruct H as (g & n & u & -> & Hg & Hn & ->). eauto.
    + destruct H as (n & u & -> & Hn & Hu). exists n, u.
      split; [done |].
      split; [by apply matches_re_number | by apply matches_percent_opt].
  - intros [H | [H | H]]; [left; left | left; right | right; exact H].
    + destruct H as (g & n & -> & Hg & Hn). exists g, n, "dB". eauto.
    + destruct H as (n & u & -> & Hn & Hu). exists n, u.
      split; [done |].
      split; [by apply matches_re_number | by apply matches_percent_opt].
Qed.

Lemma isValidRate_rate (v : string) : Xml.isValidRate v = true <-> rate v.
Proof.
  unfold Xml.isValidRate, rate, Xml.re_rate.
  rewrite orb_true_iff, includes_In.
  by rewrite (test_signed _ (fun u => u = EmptyString \/ u = "%") v)
    by apply matches_percent_opt.
Qed.

Lemma isValidPitch_pitch (v : string) : Xml.isValidPitch v = true <-> pitch v.
Proof.
  unfold Xml.isValidPitch, pitch, Xml.re_pitch.
  rewrite orb_true_iff, includes_In.
  rewrite (test_signed _ (fun u => u = "Hz" \/ u = "%") v); [done |].
  intros u. rewrite matches_Alt, !matches_Lit. tauto.
Qed.

End Validators.

Section ValidatorProperties.
Import Regex ValidationSpec.


Lemma decimal_chars (n : string) :
  decimal n ->
  all_chars (fun a => digit a || Ascii.eqb a ".") n = true
  /\ exists c rest, n = String c rest /\ digit c = true.
Proof.
  intros (i & f & -> & [Hne Hi] & Hf). split.
  - rewrite all_chars_append. apply andb_true_iff. split.
    + clear Hne. induction i as [|a i IH]; [done |]. simpl in *.
      apply andb_true_iff in Hi as [Ha Hi]. by rewrite Ha, IH.
    + destruct Hf as [-> | (d & -> & [_ Hd])]; [done |].
      change ("." +:+ d) with (String "." d). simpl.
      induction d as [|a d IH]; [done |]. simpl in *.
      apply andb_true_iff in Hd as [Ha Hd]. by rewrite Ha, IH.
  - destruct i as [|c i]; [done |]. simpl in Hi.
    apply andb_true_iff in Hi as [Hc _]. exists c, (i +:+ f). by rewrite append_cons.
Qed.

(** X2. isValidDuration accepts exactly: digits, optionally a point and
    digits, then ms or s. So it checks no range (any run of digits followed
    by ms is accepted), it rejects a number without a unit, and it rejects
    whatever does not start with a digit, a sign included. *)
Theorem isValidDuration_exact (v : string) :
  (Xml.isValidDuration v = true <-> duration v)
  /\ (forall n, digits n -> Xml.isValidDuration (n +:+ "ms") = true)
  /\ (forall n, decimal n -> Xml.isValidDuration n = false)
  /\ (forall c rest, digit c = false -> Xml.isValidDuration (String c rest) = false).
Proof.
  split; [apply isValidDuration_duration |]. split; [| split].
  - intros n Hn. apply isValidDuration_duration. exists n, "ms".
    split; [done |]. split; [| by left].
    exists n, EmptyString. rewrite append_empty_r. auto.
  - intros n Hn. destruct (Xml.isValidDuration n) eqn:Hv; [| done].
    apply isValidDuration_duration in Hv as (m & u & -> & _ & Hu).
    apply decimal_chars in Hn as [Hn _]. rewrite all_chars_append in Hn.
    apply andb_true_iff in Hn as [_ Hn]. by destruct Hu as [-> | ->].
  - intros c rest Hc. destruct (Xml.isValidDuration (String c rest)) eqn:Hv; [| done].
    apply isValidDuration_duration in Hv as (m & u & Hv & Hm & _).
    apply decimal_chars in Hm as [_ (c' & rest' & -> & Hc')].
    rewrite append_cons in Hv. injection Hv as -> _. congruence.
Qed.

(** X3. isValidVolume accepts exactly: a decimal with an optional sign and
    the suffix dB; an unsigned decimal, optionally followed by a percent
    sign; one of six names. It checks no range: any run of digits followed
    by a percent sign is accepted. *)
Theorem isValidVolume_exact (v : string) :
  (Xml.isValidVolume v = true <-> volume v)
  /\ (forall n, digits n -> Xml.isValidVolume (n +:+ "%") = true).
Proof.
  split; [apply isValidVolume_volume |].
  intros n Hn. apply isValidVolume_volume. right. left. exists n, "%".
  split; [done |]. split; [| by right].
  exists n, EmptyString. rewrite append_empty_r. auto.
Qed.

(** X4. isValidRate accepts exactly: a decimal with an optional sign,
    optionally followed by a percent sign; one of five names. Every
    unsigned number or percentage that isValidVolume takes in that form is
    also a rate. *)
Theorem isValidRate_exact (v : string) :
  (Xml.isValidRate v = true <-> rate v)
  /\ (test Xml.re_percentage v = true -> Xml.isValidRate v = true).
Proof.
  split; [apply isValidRate_rate |].
  intros Hv. apply isValidRate_rate. left.
  unfold Xml.re_percentage in Hv.
  apply test_matches, matches_Cat in Hv as (n & u & -> & Hn & Hu).
  exists EmptyString, n, u. split; [done |]. split; [by left |].
  split; [by apply matches_re_number | by apply matches_percent_opt].
Qed.

(** X5. isValidPitch accepts exactly: a decimal with an optional sign followed
    by Hz or a percent sign; one of five names. A pitch in percent is also a
    rate. *)
Theorem isValidPitch_exact (v : string) :
  (Xml.isValidPitch v = true <-> pitch v)
  /\ (forall g n, sign g -> decimal n ->
        Xml.isValidPitch (g +:+ n +:+ "%") = true
        /\ Xml.isValidRate (g +:+ n +:+ "%") = true).
Proof.
  split; [apply isValidPitch_pitch |].
  intros g n Hg Hn. split.
  - apply isValidPitch_pitch. left. exists g, n, "%". auto.
  - apply isValidRate_rate. left. exists g, n, "%". auto.
Qed.

End ValidatorProperties.

Section ValidatedValues.
Import Regex.

Lemma all_unreserved (v : string) :
  all_chars ValidationSpec.unreserved v = true -> EscapeSpec.has_reserved v = false.
Proof.
  induction v as [|a v IH]; [done |]. simpl. unfold ValidationSpec.unreserved at 1.
  intros [Ha Hv]%andb_true_iff. apply negb_true_iff in Ha. by rewrite Ha, IH.
Qed.

Lemma escapeXml_plain (v : string) :
  EscapeSpec.has_reserved v = false -> Xml.escapeXml v = v.
Proof.
  rewrite escapeXml_pass. induction v as [|a v IH]; [done |]. simpl.
  intros [Ha Hv]%orb_false_iff. by rewrite (entity_plain a Ha), IH.
Qed.

Ltac class_unreserved :=
  let a := fresh "a" in
  intros a; destruct a as [[] [] [] [] [] [] [] []]; vm_compute; congruence.

Lemma test_unreserved (r : regex) (v : string) :
  within ValidationSpec.unreserved r -> test r v = true -> EscapeSpec.has_reserved v = false.
Proof.
  intros Hr Hv. apply all_unreserved.
  apply (matches_within ValidationSpec.unreserved r); [by apply test_matches | done].
Qed.

(** X6. Whatever one of the seven validators accepts is not the empty string
    and holds none of the five reserved characters: escaping leaves it as it
    is, and a node that tests it for truthiness takes it as present. *)
Theorem validated_values_plain (v : string) :
  ValidationSpec.validated v = true ->
  v <> EmptyString
  /\ EscapeSpec.has_reserved v = false
  /\ Xml.escapeXml v = v
  /\ JS.truthy (Some v) = true.
Proof.
  intros Hv.
  assert (v <> EmptyString) as Hne by (intros ->; vm_compute in Hv; discriminate).
  assert (EscapeSpec.has_reserved v = false) as Hres.
  { unfold ValidationSpec.validated, Xml.isValidBreakStrength, Xml.isValidSilenceType,
      Xml.isValidEmphasisLevel, Xml.isValidDuration, Xml.isValidVolume,
      Xml.isValidRate, Xml.isValidPitch in Hv.
    repeat (apply orb_true_iff in Hv as [Hv | Hv]);
      first [ discriminate Hv
            | by (apply String.eqb_eq in Hv; subst v)
            | revert Hv; apply test_unreserved;
              cbv [within Xml.re_duration Xml.re_decibel Xml.re_percentage
                     Xml.re_rate Xml.re_pitch Xml.re_number Xml.re_sign
                     Plus Opt Lit Chr];
              repeat split; class_unreserved ]. }
  split; [done |]. split; [done |]. split; [by apply escapeXml_plain |].
  destruct v; [done | reflexivity].
Qed.

Lemma validated_values_plain_witness :
  ValidationSpec.validated "+10dB" = true /\ Xml.escapeXml "+10dB" = "+10dB".
Proof.
  split; [reflexivity |].
  apply (validated_values_plain "+10dB"). reflexivity.
Defined.



End ValidatedValues.

(** ** formatAttributes and the optional attributes of the nodes *)

Section Attributes.
Import AttributeSpec.

Lemma join_app (sep : string) (xs ys : list string) :
  JS.join sep (xs ++ ys)
  = match xs, ys with
    | [], _ => JS.join sep ys
    | _, [] => JS.join sep xs
    | _, _ => JS.join sep xs +:+ sep +:+ JS.join sep ys
    end.
Proof.
  induction xs as [|x [|x' xs] IH].
  - done.
  - destruct ys; [done |]. reflexivity.
  - destruct ys as [|y ys]; [by rewrite app_nil_r |].
    change (JS.join sep ((x :: x' :: xs) ++ y :: ys))
      with (x +:+ sep +:+ JS.join sep ((x' :: xs) ++ y :: ys)).
    rewrite IH.
    change (JS.join sep (x :: x' :: xs)) with (x +:+ sep +:+ JS.join sep (x' :: xs)).
    by rewrite !append_assoc.
Qed.

Lemma all_undefined_filter (attrs : list (string * option string)) :
  all_undefined attrs = true <-> defined_entries attrs = [].
Proof.
  induction attrs as [|[k [v|]] attrs IH]; simpl; [done | split; discriminate | exact IH].
Qed.

Lemma join_nonempty (xs : list string) :
  Forall (fun x => x <> EmptyString) xs -> xs <> [] -> JS.join " " xs <> EmptyString.
Proof.
  intros Hxs Hne. destruct xs as [|x xs]; [done |].
  apply Forall_cons in Hxs as [Hx _].
  destruct x as [|a x]; [done |]. by destruct xs.
Qed.

Lemma formatAttributes_empty (zs : list (string * option string)) :
  Xml.formatAttributes zs = EmptyString <-> all_undefined zs = true.
Proof.
  rewrite all_undefined_filter. unfold Xml.formatAttributes.
  fold (defined_entries zs). split; [| by intros ->].
  intros Hj. destruct (defined_entries zs) as [|z zs'] eqn:Hz; [done |].
  exfalso. revert Hj. apply join_nonempty; [| done].
  apply Forall_forall. intros x Hx.
  apply list_elem_of_In, in_map_iff in Hx as ([k v] & <- & _).
  destruct k; discriminate.
Qed.

Lemma tag_with_cases (tag : string) (attrs : list (string * option string)) :
  tag_with tag attrs
  = if all_undefined attrs then tag
    else tag +:+ " " +:+ Xml.formatAttributes attrs.
Proof.
  unfold tag_with. destruct (all_undefined attrs) eqn:Hu.
  - apply formatAttributes_empty in Hu. by rewrite Hu.
  - destruct (String.eqb_spec (Xml.formatAttributes attrs) EmptyString) as [He|]; [| done].
    apply formatAttributes_empty in He. congruence.
Qed.

(** X8. formatAttributes of two objects put together is the two results with
    one space between them, unless one of the objects defines no value, and
    then it is the result of the other; the result is empty exactly when no
    value is defined; a value that is the empty string is written, as an
    empty attribute. *)
Theorem formatAttributes_app (xs ys : list (string * option string)) :
  Xml.formatAttributes (xs ++ ys)
  = (if all_undefined xs then Xml.formatAttributes ys
     else if all_undefined ys then Xml.formatAttributes xs
     else Xml.formatAttributes xs +:+ " " +:+ Xml.formatAttributes ys)
  /\ (Xml.formatAttributes xs = EmptyString <-> all_undefined xs = true)
  /\ (forall key, Xml.formatAttributes [(key, None)] = EmptyString)
  /\ (forall key value,
        Xml.formatAttributes [(key, Some value)]
        = key +:+ "=" +:+ JS.dq +:+ value +:+ JS.dq).
Proof.
  split; [| split; [apply formatAttributes_empty | split; reflexivity]].
  unfold Xml.formatAttributes.
  rewrite List.filter_app, List.map_app, join_app.
  fold (defined_entries xs) (defined_entries ys).
  destruct (all_undefined xs) eqn:Hx.
  { apply all_undefined_filter in Hx. by rewrite Hx. }
  destruct (all_undefined ys) eqn:Hy.
  { apply all_undefined_filter in Hy. rewrite Hy. simpl.
    by destruct (List.map _ (defined_entries xs)). }
  destruct (defined_entries xs) eqn:Hdx.
  { apply all_undefined_filter in Hdx. congruence. }
  destruct (defined_entries ys) eqn:Hdy.
  { apply all_undefined_filter in Hdy. congruence. }
  reflexivity.
Qed.

(** X9. AudioElement writes the escaped fallback text as its body; a missing
    fallback text and one that is the empty string both give an empty
    body. *)
Theorem AudioElement_render_body (src : string) (fallbackText : option string) :
  render (AudioElement src fallbackText)
  = "<audio src=" +:+ JS.dq +:+ src +:+ JS.dq +:+ ">"
    +:+ Xml.escapeXml (default EmptyString fallbackText) +:+ "</audio>"
  /\ render (AudioElement src (Some EmptyString)) = render (AudioElement src None).
Proof.
  split; [| reflexivity].
  cbn [render]. unfold AudioElement_render.
  destruct fallbackText as [[|a t]|]; same_string.
Qed.

End Attributes.

Section GenericAttributes.
Import AttributeSpec.

Ltac by_cases :=
  rewrite tag_with_cases;
  unfold entry, given, Xml.formatAttributes, push_attr; cbn; unfold attr;
  rewrite ?append_assoc; reflexivity.



Lemma EmphasisElement_generic (text : string) (level : option EmphasisLevel) :
  EmphasisElement_render text level
  = "<" +:+ tag_with "emphasis" [entry "level" (EmphasisLevel_str <$> level)]
    +:+ ">" +:+ Xml.escapeXml text +:+ "</emphasis>".
Proof.
  destruct level as [[]|]; unfold EmphasisElement_render;
    rewrite SSMLElement_escapeXml_eq; by_cases.
Qed.

Lemma ExpressAsElement_generic (text : string) (o : ExpressAsOptions) :
  ExpressAsElement_render text o
  = "<" +:+ tag_with "mstts:express-as"
              [("style", Some (ExpressAsStyle_str (style o)));
               entry "styledegree" (styledegree o);
               entry "role" (ExpressAsRole_str <$> role o)]
    +:+ ">" +:+ Xml.escapeXml text +:+ "</mstts:express-as>".
Proof.
  destruct o as [s [[|a d]|] [[]|]]; unfold ExpressAsElement_render;
    rewrite SSMLElement_escapeXml_eq; by_cases.
Qed.

Lemma ProsodyElement_generic (text : string) (o : ProsodyOptions) :
  ProsodyElement_render text o
  = "<" +:+ tag_with "prosody"
              [entry "pitch" (pitch o); entry "contour" (contour o);
               entry "range" (range o); entry "rate" (rate o);
               entry "volume" (prosody_volume o)]
    +:+ ">" +:+ Xml.escapeXml text +:+ "</prosody>".
Proof.
  destruct o as [[[|a1 p]|] [[|a2 c]|] [[|a3 rg]|] [[|a4 rt]|] [[|a5 v]|]];
    unfold ProsodyElement_render; rewrite SSMLElement_escapeXml_eq; by_cases.
Qed.

Lemma SayAsElement_generic (text : string) (o : SayAsOptions) :
  SayAsElement_render text o
  = "<" +:+ tag_with "say-as"
              [("interpret-as", Some (SayAsInterpretAs_str (interpretAs o)));
               entry "format" (format o); entry "detail" (detail o)]
    +:+ ">" +:+ Xml.escapeXml text +:+ "</say-as>".
Proof.
  destruct o as [i [[|a1 f]|] [[|a2 d]|]]; unfold SayAsElement_render;
    rewrite SSMLElement_escapeXml_eq; by_cases.
Qed.


End GenericAttributes.


(** X11. The four nodes that wrap a text and take optional attributes
    (emphasis, express-as, prosody, say-as) write the attributes the same
    way, in the order level; style, styledegree, role; pitch, contour,
    range, rate, volume; interpret-as, format, detail; and the escaped text
    as body. *)
Theorem text_node_attributes_generic (text : string) :
  (forall level,
     EmphasisElement_render text level
     = "<" +:+ AttributeSpec.tag_with "emphasis"
                 [AttributeSpec.entry "level" (EmphasisLevel_str <$> level)]
       +:+ ">" +:+ Xml.escapeXml text +:+ "</emphasis>")
  /\ (forall o,
        ExpressAsElement_render text o
        = "<" +:+ AttributeSpec.tag_with "mstts:express-as"
                    [("style", Some (ExpressAsStyle_str (style o)));
                     AttributeSpec.entry "styledegree" (styledegree o);
                     AttributeSpec.entry "role" (ExpressAsRole_str <$> role o)]
          +:+ ">" +:+ Xml.escapeXml text +:+ "</mstts:express-as>")
  /\ (forall o,
        ProsodyElement_render text o
        = "<" +:+ AttributeSpec.tag_with "prosody"
                    [AttributeSpec.entry "pitch" (pitch o);
                     AttributeSpec.entry "contour" (contour o);
                     AttributeSpec.entry "range" (range o);
                     AttributeSpec.entry "rate" (rate o);
                     AttributeSpec.entry "volume" (prosody_volume o)]
          +:+ ">" +:+ Xml.escapeXml text +:+ "</prosody>")
  /\ (forall o,
        SayAsElement_render text o
        = "<" +:+ AttributeSpec.tag_with "say-as"
                    [("interpret-as", Some (SayAsInterpretAs_str (interpretAs o)));
                     AttributeSpec.entry "format" (format o);
                     AttributeSpec.entry "detail" (detail o)]
          +:+ ">" +:+ Xml.escapeXml text +:+ "</say-as>").
Proof.
  split; [exact (EmphasisElement_generic text) |].
  split; [exact (ExpressAsElement_generic text) |].
  split; [exact (ProsodyElement_generic text) | exact (SayAsElement_generic text)].
Qed.

(** ** Text cannot add markup *)

Section TextIsInert.
Import AttributeSpec.

Lemma count_char_append (c : ascii) (s1 s2 : string) :
  count_char c (s1 +:+ s2) = count_char c s1 + count_char c s2.
Proof.
  induction s1 as [|a s1 IH]; [done |].
  rewrite append_cons. simpl. rewrite IH. lia.
Qed.

Lemma count_char_entity (c a : ascii) :
  delimiter c = true -> count_char c (EscapeSpec.entity a) = 0.
Proof.
  unfold delimiter. rewrite !orb_true_iff, !Ascii.eqb_eq.
  intros [[[-> | ->] | ->] | ->];
    destruct a as [[] [] [] [] [] [] [] []]; reflexivity.
Qed.

Lemma count_char_escapeXml (c : ascii) (text : string) :
  delimiter c = true -> count_char c (Xml.escapeXml text) = 0.
Proof.
  intros Hc. rewrite escapeXml_pass.
  induction text as [|a text IH]; [done |]. simpl.
  by rewrite count_char_append, (count_char_entity c a Hc), IH.
Qed.

Lemma count_char_concat (c : ascii) (pieces : list string) :
  count_char c (DocumentSpec.concat pieces)
  = foldr Nat.add 0 (count_char c <$> pieces).
Proof.
  induction pieces as [|x pieces IH]; [done |]. simpl.
  by rewrite count_char_append, IH.
Qed.

Lemma count_char_voice_section (c : ascii) (vb : VoiceBuilder) (text : string) :
  delimiter c = true ->
  count_char c (DocumentSpec.voice_section (with_content vb (inl text)))
  = count_char c (DocumentSpec.voice_section vb).
Proof.
  intros Hc. unfold DocumentSpec.voice_section. simpl.
  rewrite fmap_app, concat_app, !count_char_append. simpl.
  rewrite append_empty_r, (count_char_escapeXml c text Hc). lia.
Qed.

Lemma count_char_sections (c : ascii) (h : Heap) (v : loc) (vb : VoiceBuilder)
  (text : string) (ls : list loc) :
  delimiter c = true ->
  voices h !! v = Some vb ->
  (count_char c ∘ DocumentSpec.voice_section) <$>
    omap (fun l => <[v := with_content vb (inl text)]> (voices h) !! l) ls
  = (count_char c ∘ DocumentSpec.voice_section) <$>
      omap (fun l => voices h !! l) ls.
Proof.
  intros Hc Hv. induction ls as [|l ls IH]; [done |].
  rewrite !omap_cons_app, !fmap_app, IH. f_equal.
  destruct (decide (v = l)) as [<- | Hne].
  - rewrite list_lookup_insert_eq by by eapply lookup_lt_Some. rewrite Hv. simpl.
    by rewrite count_char_voice_section.
  - by rewrite list_lookup_insert_ne.
Qed.

Lemma count_char_document (c : ascii) (obj : SSMLBuilder)
  (secs secs' : list VoiceBuilder) :
  (count_char c ∘ DocumentSpec.voice_section) <$> secs'
  = (count_char c ∘ DocumentSpec.voice_section) <$> secs ->
  count_char c (DocumentSpec.document_of obj secs')
  = count_char c (DocumentSpec.document_of obj secs).
Proof.
  intros Hsecs. unfold DocumentSpec.document_of, DocumentSpec.document,
    DocumentSpec.children.
  rewrite !count_char_append, !fmap_app, !concat_app, !count_char_append.
  do 4 f_equal.
  rewrite !count_char_concat, <- !list_fmap_compose.
  assert (forall xs : list VoiceBuilder,
            (count_char c ∘ DocumentSpec.child ∘ DocumentSpec.voice_section) <$> xs
            = (fun n => count_char c JS.nl + (count_char c "    " + n)) <$>
                ((count_char c ∘ DocumentSpec.voice_section) <$> xs)) as Hchild.
  { intros xs. rewrite <- list_fmap_compose. apply list_fmap_ext. intros i x _.
    unfold compose, DocumentSpec.child. by rewrite !count_char_append. }
  by rewrite !Hchild, Hsecs.
Qed.

(** X12. Whatever text is passed to text() of a VoiceBuilder, the document its
    SSMLBuilder builds afterwards holds as many angle brackets and quotes
    as the document it built before: a text run adds no tag and no
    attribute. *)
Theorem text_adds_no_markup (h : Heap) (b v : loc) (obj : SSMLBuilder)
  (vb : VoiceBuilder) (text : string) (c : ascii) :
  heap_wf h ->
  builders h !! b = Some obj ->
  voices h !! v = Some vb ->
  delimiter c = true ->
  exists before after,
    SSMLBuilder_build b h = (Returns before, h)
    /\ (SSMLBuilder_build b (VoiceBuilder_text v text h).2).1 = Returns after
    /\ count_char c after = count_char c before.
Proof.
  intros [Hel _] Hb Hv Hc.
  exists (DocumentSpec.document_of obj (DocumentSpec.sections h obj)).
  unfold VoiceBuilder_text. rewrite VoiceBuilder_push_eq, Hv. simpl.
  set (h' := {| builders := _; voices := _ |}).
  assert (elements_valid h') as Hel'.
  { intros b' o l Hb' Hl. subst h'. simpl in *. rewrite length_insert.
    by apply (Hel b' o). }
  exists (DocumentSpec.document_of obj (DocumentSpec.sections h' obj)).
  split; [by apply SSMLBuilder_build_sections |].
  split; [by rewrite (SSMLBuilder_build_sections h' b obj Hel' Hb) |].
  apply count_char_document. unfold DocumentSpec.sections. subst h'. simpl.
  by apply count_char_sections.
Qed.

Lemma text_adds_no_markup_witness :
  heap_wf example_heap
  /\ count_char "<"
       (default EmptyString
          (match (SSMLBuilder_build 0
                    (VoiceBuilder_text 0 "a < b" example_heap).2).1 with
           | Returns d => Some d
           | _ => None
           end))
     = count_char "<" example_document.
Proof.
  split; [exact example_heap_wf |].
  destruct (text_adds_no_markup example_heap 0 0 example_builder example_voice
              "a < b" "<" example_heap_wf eq_refl eq_refl eq_refl)
    as (before & after & Hb & Ha & Hcount).
  rewrite Ha. simpl. rewrite Hcount.
  injection Hb as <-. reflexivity.
Defined.

End TextIsInert.

(** ** More on escaping *)

(** X13. Escaping loses nothing: two texts with the same escaped form are the
    same text. *)
Theorem escapeXml_injective (a b : string) :
  Xml.escapeXml a = Xml.escapeXml b <-> a = b.
Proof.
  split; [| by intros ->].
  intros Heq. apply (f_equal EscapeSpec.decode) in Heq.
  rewrite !escapeXml_pass, !decode_escape_pass in Heq. by injection Heq.
Qed.

(** X14. Two text runs in a row render as the one text run of their
    concatenation, in a VoiceBuilder and in the three containers: where a
    text is cut into calls of text() does not show in the output. *)
Theorem text_runs_concatenate (h : Heap) (v : loc) (s1 s2 : string)
  (content : ContentList) (this : LangElement_state) :
  (VoiceBuilder_render v (run (on_voice v [vm_text s1; vm_text s2]) h)).1
  = (VoiceBuilder_render v (run (on_voice v [vm_text (s1 +:+ s2)]) h)).1
  /\ ParagraphElement_render (ParagraphElement_text s2 (ParagraphElement_text s1 content))
     = ParagraphElement_render (ParagraphElement_text (s1 +:+ s2) content)
  /\ SentenceElement_render (SentenceElement_text s2 (SentenceElement_text s1 content))
     = SentenceElement_render (SentenceElement_text (s1 +:+ s2) content)
  /\ LangElement_render (LangElement_text s2 (LangElement_text s1 this))
     = LangElement_render (LangElement_text (s1 +:+ s2) this).
Proof.
  assert (forall c : ContentList,
            render_content render ((c ++ [inl s1]) ++ [inl s2])
            = render_content render (c ++ [inl (s1 +:+ s2)])) as Hc.
  { intros c. rewrite !render_content_concat, !fmap_app, !concat_app. simpl.
    by rewrite escapeXml_append, !append_empty_r, !append_assoc. }
  split;
    [| repeat split;
       unfold ParagraphElement_render, ParagraphElement_text,
         SentenceElement_render, SentenceElement_text, LangElement_render,
         LangElement_text;
       cbn [render lang_lang lang_content]; by rewrite Hc].
  destruct (voices h !! v) as [vb|] eqn:Hv.
  - destruct (VoiceBuilder_run_content [vm_text s1; vm_text s2] h v vb Hv)
      as (vb1 & Hv1 & Hc1 & Ho1 & _).
    destruct (VoiceBuilder_run_content [vm_text (s1 +:+ s2)] h v vb Hv)
      as (vb2 & Hv2 & Hc2 & Ho2 & _).
    rewrite (VoiceBuilder_render_some _ _ _ Hv1), (VoiceBuilder_render_some _ _ _ Hv2).
    simpl. f_equal. unfold VoiceBuilder_render_fields.
    rewrite Hc1, Hc2, Ho1, Ho2. do 3 f_equal.
    change (omap DocumentSpec.appended [vm_text s1; vm_text s2])
      with ([inl s1; inl s2] : ContentList).
    change (omap DocumentSpec.appended [vm_text (s1 +:+ s2)])
      with ([inl (s1 +:+ s2)] : ContentList).
    change [inl s1; inl s2] with ([inl s1] ++ [inl s2] : ContentList).
    by rewrite app_assoc, Hc.
  - assert (forall t, (returning v_ref (VoiceBuilder_text v t) h).2 = h) as Hsame.
    { intros t. rewrite returning_snd.
      unfold VoiceBuilder_text. by rewrite VoiceBuilder_push_eq, Hv. }
    unfold run, on_voice. simpl foldl. by rewrite !Hsame.
Qed.

(** ** The builders: construction, chaining and independence *)

Lemma insert_snoc {A} (l : list A) (x y : A) :
  <[length l := y]> (l ++ [x]) = l ++ [y].
Proof. rewrite insert_app_r_alt by lia. by rewrite Nat.sub_diag. Qed.

Lemma lookup_snoc {A} (l : list A) (x : A) : (l ++ [x]) !! length l = Some x.
Proof. by apply list_lookup_middle. Qed.

(** X15. A builder just constructed builds the opening tag and the closing tag
    with nothing between them; each of version, xmlns and xmlns:mstts has
    its default when the options object lacks the key, the given string
    when the key holds one, and the text undefined when the key is present
    and holds undefined. *)
Theorem new_SSMLBuilder_document (h : Heap) (o : SSMLOptions) :
  let created := new_SSMLBuilder o h in
  let b := length (builders h) in
  created.1 = Returns b
  /\ SSMLBuilder_build b created.2
     = (Returns
          (DocumentSpec.speak_open
             (effective "1.0" (version o))
             (effective "http://www.w3.org/2001/10/synthesis" (xmlns o))
             (effective "https://www.w3.org/2001/mstts" (xmlnsMstts o))
             (lang o)
           +:+ JS.nl +:+ "</speak>"),
        created.2).
Proof.
  intros created b. split; [done |].
  subst created b. unfold new_SSMLBuilder, alloc_builder. simpl.
  erewrite SSMLBuilder_build_document; [| apply lookup_snoc | constructor].
  unfold DocumentSpec.document_of. simpl.
  by destruct (version o) as [[?|]|], (xmlns o) as [[?|]|],
    (xmlnsMstts o) as [[?|]|].
Qed.

(** build() of a builder whose object and whose sections are the same in
    two heaps returns the same document in both. *)
Lemma lookups_agree (h h' : Heap) (ls : list loc) (secs : list VoiceBuilder) :
  (forall l, l ∈ ls -> voices h' !! l = voices h !! l) ->
  Forall2 (fun l vb => voices h !! l = Some vb) ls secs ->
  Forall2 (fun l vb => voices h' !! l = Some vb) ls secs.
Proof.
  intros Hls Hsecs. induction Hsecs as [|l vb ls secs Hl _ IH]; [constructor |].
  constructor.
  - rewrite Hls; [done | left].
  - apply IH. intros l' Hl'. apply Hls. by right.
Qed.

Lemma SSMLBuilder_build_frame (h h' : Heap) (b : loc) (obj : SSMLBuilder) :
  elements_valid h ->
  builders h !! b = Some obj ->
  builders h' !! b = Some obj ->
  (forall l, l ∈ elements obj -> voices h' !! l = voices h !! l) ->
  SSMLBuilder_build b h'
  = (Returns (DocumentSpec.document_of obj (DocumentSpec.sections h obj)), h').
Proof.
  intros Hel Hb Hb' Hls. apply SSMLBuilder_build_document; [done |].
  apply (lookups_agree h); [done |]. by apply (sections_registered h b).
Qed.

(** Content methods on one VoiceBuilder change that object only. *)
Lemma content_run (ms : list VoiceBuilder_method) (h : Heap) (v : loc)
  (vb : VoiceBuilder) :
  Forall content_method ms ->
  voices h !! v = Some vb ->
  exists vb', vb_parent vb' = vb_parent vb
    /\ run (on_voice v ms) h
       = {| builders := builders h; voices := <[v := vb']> (voices h) |}.
Proof.
  intros Hms. revert h vb. induction Hms as [|m ms [c Hm] _ IH]; intros h vb Hv.
  - exists vb. split; [done |]. rewrite list_insert_id by done. by destruct h.
  - assert (v < length (voices h)) as Hlt by by eapply lookup_lt_Some.
    change (run (on_voice v (m :: ms)) h)
      with (run (on_voice v ms) (exec (call_VoiceBuilder v m) h).2).
    cbn [exec]. rewrite (VoiceBuilder_exec_content v m c Hm), returning_snd.
    rewrite VoiceBuilder_push_eq, Hv. cbn [snd].
    edestruct (IH {| builders := builders h;
                     voices := <[v := with_content vb c]> (voices h) |})
      as (vb' & Hp & Hrun).
    { simpl. by apply list_lookup_insert_eq. }
    exists vb'. split; [done |].
    rewrite Hrun. simpl. by rewrite list_insert_insert_eq.
Qed.

(** X16. A VoiceBuilder constructed directly with a parent is not a section of
    the parent: whatever content it is given, the parent builds the
    document it built before, and build() on the VoiceBuilder returns that
    same document, without the content of the VoiceBuilder. *)
Theorem unregistered_VoiceBuilder (h : Heap) (b : loc) (obj : SSMLBuilder)
  (o : VoiceOptions) (ms : list VoiceBuilder_method) :
  heap_wf h ->
  builders h !! b = Some obj ->
  Forall content_method ms ->
  let v := length (voices h) in
  let h2 := run (on_voice v ms) (new_VoiceBuilder o (Some b) h).2 in
  let document := DocumentSpec.document_of obj (DocumentSpec.sections h obj) in
  (new_VoiceBuilder o (Some b) h).1 = Returns v
  /\ SSMLBuilder_build b h = (Returns document, h)
  /\ SSMLBuilder_build b h2 = (Returns document, h2)
  /\ VoiceBuilder_build v h2 = (Returns document, h2).
Proof.
  intros [Hel _] Hb Hms v h2 document.
  split; [done |]. split; [by apply SSMLBuilder_build_sections |].
  subst h2 v. unfold new_VoiceBuilder, alloc_voice. simpl.
  set (vb0 := {| vb_content := []; vb_options := o; vb_parent := Some b |}).
  destruct (content_run ms {| builders := builders h; voices := voices h ++ [vb0] |}
              (length (voices h)) vb0 Hms (lookup_snoc _ _)) as (vb' & Hp & ->).
  simpl. rewrite insert_snoc.
  set (h2 := {| builders := _; voices := _ |}).
  assert (SSMLBuilder_build b h2 = (Returns document, h2)) as Hbuild.
  { apply (SSMLBuilder_build_frame h); [done | done | done |].
    intros l Hl. simpl. apply lookup_app_l. by apply (Hel b obj). }
  split; [done |].
  unfold VoiceBuilder_build.
  erewrite bind_returns; [| apply get_voice_some; apply lookup_snoc].
  by rewrite Hp.
Qed.

Lemma unregistered_VoiceBuilder_witness :
  heap_wf example_heap
  /\ (VoiceBuilder_build 2
        (run (on_voice 2 [vm_text "unseen"])
           (new_VoiceBuilder {| name := "x"; effect := None |} (Some 0)
              example_heap).2)).1
     = Returns example_document.
Proof.
  split; [exact example_heap_wf |].
  assert (Forall content_method [vm_text "unseen"]) as Hms
    by (constructor; [by exists (inl "unseen") | constructor]).
  destruct (unregistered_VoiceBuilder example_heap 0 example_builder
              {| name := "x"; effect := None |} [vm_text "unseen"]
              example_heap_wf eq_refl Hms) as (_ & _ & _ & H).
  apply (f_equal fst) in H. exact H.
Defined.



(** X18. No call removes, reorders or rewrites anything: after any calls,
    every VoiceBuilder is still there with its name, effect and parent and
    with its earlier content at the start of its content, and every
    SSMLBuilder is still there with its options and with its earlier
    sections at the start of its sections. *)
Theorem calls_append_only (h : Heap) (cs : list Call) :
  (forall v vb, voices h !! v = Some vb ->
     exists vb', voices (run cs h) !! v = Some vb'
       /\ vb_parent vb' = vb_parent vb /\ vb_options vb' = vb_options vb
       /\ vb_content vb `prefix_of` vb_content vb')
  /\ (forall b obj, builders h !! b = Some obj ->
        exists obj', builders (run cs h) !! b = Some obj'
          /\ options obj' = options obj
          /\ elements obj `prefix_of` elements obj').
Proof. exact (run_grows cs h). Qed.

(** X19. The chain new SSMLBuilder(o).voice(n1, e1).text(t1).voice(n2, e2)
    .text(t2).build(), run in any heap, returns the document of o with
    exactly two sections, the first voice with t1 and then the second voice
    with t2. *)
Theorem fluent_chain (h : Heap) (o : SSMLOptions) (n1 n2 : string)
  (e1 e2 : option string) (t1 t2 : string) :
  let chain :=
    b <- new_SSMLBuilder o ;;
    v1 <- SSMLBuilder_voice b n1 e1 ;;
    v1 <- VoiceBuilder_text v1 t1 ;;
    v2 <- VoiceBuilder_voice v1 n2 e2 ;;
    v2 <- VoiceBuilder_text v2 t2 ;;
    VoiceBuilder_build v2 in
  (chain h).1
  = Returns
      (DocumentSpec.speak_open
         (effective "1.0" (version o))
         (effective "http://www.w3.org/2001/10/synthesis" (xmlns o))
         (effective "https://www.w3.org/2001/mstts" (xmlnsMstts o))
         (lang o)
       +:+ DocumentSpec.child
             (DocumentSpec.voice_open {| name := n1; effect := e1 |}
              +:+ Xml.escapeXml t1 +:+ "</voice>")
       +:+ DocumentSpec.child
             (DocumentSpec.voice_open {| name := n2; effect := e2 |}
              +:+ Xml.escapeXml t2 +:+ "</voice>")
       +:+ JS.nl +:+ "</speak>").
Proof.
  intros chain. subst chain.
  set (b := length (builders h)). set (v1 := length (voices h)).
  erewrite bind_returns; [| reflexivity]. fold b.
  erewrite bind_returns; cycle 1.
  { rewrite SSMLBuilder_voice_eq. simpl. subst b. rewrite lookup_snoc.
    rewrite insert_snoc. reflexivity. }
  fold v1.
  erewrite bind_returns; cycle 1.
  { unfold VoiceBuilder_text. rewrite VoiceBuilder_push_eq. simpl.
    subst v1. rewrite lookup_snoc, insert_snoc. reflexivity. }
  erewrite bind_returns; cycle 1.
  { unfold VoiceBuilder_voice.
    erewrite bind_returns; [| apply get_voice_some; apply lookup_snoc].
    simpl. rewrite SSMLBuilder_voice_eq. simpl. rewrite lookup_snoc, insert_snoc.
    reflexivity. }
  erewrite bind_returns; cycle 1.
  { unfold VoiceBuilder_text. rewrite VoiceBuilder_push_eq. simpl.
    rewrite lookup_snoc, insert_snoc. reflexivity. }
  unfold VoiceBuilder_build.
  erewrite bind_returns; [| apply get_voice_some; apply lookup_snoc].
  simpl.
  erewrite SSMLBuilder_build_document; cycle 1.
  { simpl. apply lookup_snoc. }
  { simpl. constructor; [| constructor; [| constructor]].
    - simpl. rewrite lookup_app_l by (rewrite length_app; simpl; lia).
      apply lookup_snoc.
    - simpl. apply lookup_snoc. }
  simpl. unfold DocumentSpec.document_of, DocumentSpec.document,
    DocumentSpec.voice_section. simpl.
  rewrite !append_empty_r, ?append_assoc.
  by destruct (version o) as [[?|]|], (xmlns o) as [[?|]|],
    (xmlnsMstts o) as [[?|]|].
Qed.

(** X20. Escaping leaves a text as it is exactly when the text holds none of
    the five reserved characters, never shortens a text, and makes it at
    most six times as long. *)
Theorem escapeXml_fixed_and_bounded (text : string) :
  (Xml.escapeXml text = text <-> EscapeSpec.has_reserved text = false)
  /\ String.length text <= String.length (Xml.escapeXml text)
  /\ String.length (Xml.escapeXml text) <= 6 * String.length text.
Proof.
  split; [| split].
  - split.
    + intros Heq. destruct (EscapeSpec.has_reserved text) eqn:Hr; [| done].
      pose proof (length_escape_pass text) as [_ Hlt].
      specialize (Hlt Hr). rewrite <- escapeXml_pass, Heq in Hlt. lia.
    + rewrite escapeXml_pass. induction text as [|a text IH]; [done |]. simpl.
      intros [Ha Ht]%orb_false_iff. by rewrite (entity_plain a Ha), IH.
  - rewrite escapeXml_pass. apply length_escape_pass.
  - rewrite escapeXml_pass. induction text as [|a text IH]; [done |]. simpl.
    rewrite length_append.
    assert (String.length (EscapeSpec.entity a) <= 6) as Ha
      by (destruct a as [[] [] [] [] [] [] [] []]; simpl; lia).
    lia.
Qed.
